(** * dtcc-table: the tiling script [scripts/tile_city_mesh.py]

    A shallow embedding of the tile pipeline: footprint of a tile index,
    lowest city vertex inside it, quantized underside, corner magnet
    cutters, boolean modifiers, their application and the export loop of
    [main].

    Modelling conventions.
    - The pipeline as a whole is embedded over exact rationals: there a
      Python [float] is a [Q], equality of floats is [==], and the
      theorems give the geometry the code computes up to the rounding of
      binary64.  A division whose divisor is configurable goes through
      [py_truediv], which raises [ZeroDivisionError] as Python does;
      divisions by a non-zero literal are plain [/].
    - The two functions whose properties depend on rounding and on the
      range of a float, [quantized_bottom] and [tile_aabb], are embedded a
      second time, in module [B64], over binary64 values: every operation
      rounds to nearest, ties to even; results from [2^1024] on are
      infinities; [math.floor] raises on an infinity or a NaN, and an
      [int] too large for a float raises [OverflowError] in a mixed
      product.
    - A Python [int] is a [Z].
    - An exception is a value of [PyResult]; [x <- e ;; k] propagates it.
    - Of the file system the model keeps what the script looks at: whether
      the city mesh file is there, and whether [OUTPUT_DIR] is absent, a
      directory, a regular file, or out of reach; plus the lines printed
      and the files written.
    - The Blender host ([bpy]) is not part of the repository.  Meshes are
      kept symbolic: an applied boolean modifier is recorded as a [Boolean]
      node over the previous mesh.  Whether the host raises [RuntimeError]
      on a given modifier, and what its clean-up operator does to the city
      vertices, is a [Host] record the functions take as an argument.
      Objects keep the name they are given; visibility flags and the
      selection are not modelled. *)

From Stdlib Require Import QArith Qround Qminmax Qabs Qpower ZArith List String Ascii Bool.
From Stdlib Require Import Lia Lqa.
From Stdlib Require Import Permutation FinFun DecimalString DecimalZ.
Import ListNotations.

Open Scope string_scope.
Open Scope Q_scope.

(** ** Exceptions *)

Inductive Exn : Type :=
| ZeroDivisionError
| FileNotFoundError
| FileExistsError
| PermissionError
| OverflowError
| ValueError
| IndexError.

Inductive PyResult (A : Type) : Type :=
| Ok (a : A)
| Raise (e : Exn).

Arguments Ok {A} a.
Arguments Raise {A} e.

Definition bind {A B : Type} (r : PyResult A) (k : A -> PyResult B) : PyResult B :=
  match r with
  | Ok a => k a
  | Raise e => Raise e
  end.

Notation "x <- e ;; k" := (bind e (fun x => k))
  (at level 61, e at next level, right associativity).

(** ** Numbers, strings *)

(** [a / b] on floats. *)
Definition py_truediv (a b : Q) : PyResult Q :=
  if Qeq_bool b 0 then Raise ZeroDivisionError else Ok (a / b).

(** [a < b] on floats. *)
Definition Qlt_bool (a b : Q) : bool := negb (Qle_bool b a).

(** [max(a, b)]: the first argument unless the second is strictly greater. *)
Definition py_max (a b : Q) : Q := if Qlt_bool a b then b else a.

(** [min(zs)] of a non-empty list: the first smallest element. *)
Definition py_min (z0 : Q) (zs : list Q) : Q :=
  fold_left (fun acc v => if Qlt_bool v acc then v else acc) zs z0.

(** [range(n)]. *)
Definition py_range (n : Z) : list Z := map Z.of_nat (seq 0 (Z.to_nat n)).

(** [str(n)] and the [{n}] of an f-string, for an int. *)
Definition py_str (n : Z) : string := NilZero.string_of_int (Z.to_int n).

(** [int(s)] on the decimal strings [py_str] produces; anything else is a
    [ValueError]. *)
Definition py_int (s : string) : PyResult Z :=
  match NilZero.int_of_string s with
  | Some d => Ok (Z.of_int d)
  | None => Raise ValueError
  end.

(** [s.split(sep)] for a one-character separator. *)
Fixpoint py_split (sep : ascii) (s : string) : list string :=
  match s with
  | EmptyString => [EmptyString]
  | String c s' =>
      if Ascii.eqb c sep then EmptyString :: py_split sep s'
      else match py_split sep s' with
           | [] => [String c EmptyString]
           | w :: ws => String c w :: ws
           end
  end.

(** [l[i]]. *)
Definition py_index {A : Type} (l : list A) (i : nat) : PyResult A :=
  match nth_error l i with
  | Some a => Ok a
  | None => Raise IndexError
  end.

(** [s.startswith(p)]. *)
Definition startswith (s p : string) : bool := String.prefix p s.

(** ** Section 0 of the script: CONFIG *)

Record Config : Type := {
  TILE_SIZE : Q;
  TILES_X : Z;
  TILES_Y : Z;
  CITY_MESH_PATH : string;
  OUTPUT_DIR : string;
  MIN_MODEL_BASE_DEPTH : Q;
  FILL_LAYER_THICKNESS : Q;
  QUANTIZE_FILL : bool;
  QUANTIZE_ANCHOR_Z : Q;
  EPS : Q;
  MAGNET_RADIUS : Q;
  MAGNET_HEIGHT : Q;
  MAGNET_PERIM_OFFSET_MM : Q;
  MAGNET_SAFETY : Q;
  COUNTERSINK_SHOULDER : Q;
  SINGLE_TILE_MODE : bool;
  SINGLE_TILE_ROW : Z;
  SINGLE_TILE_COL : Z
}.

(** The values the script ships with. *)
Definition default_config : Config := {|
  TILE_SIZE := 0.20;
  TILES_X := 3;
  TILES_Y := 5;
  CITY_MESH_PATH := "output/scaled_mesh.stl";
  OUTPUT_DIR := "output/tiles";
  MIN_MODEL_BASE_DEPTH := 0.005;
  FILL_LAYER_THICKNESS := 0.02;
  QUANTIZE_FILL := true;
  QUANTIZE_ANCHOR_Z := 0;
  EPS := 0.000001;
  MAGNET_RADIUS := 0.005;
  MAGNET_HEIGHT := 0.002;
  MAGNET_PERIM_OFFSET_MM := 4;
  MAGNET_SAFETY := 0.001;
  COUNTERSINK_SHOULDER := 0.001;
  SINGLE_TILE_MODE := true;
  SINGLE_TILE_ROW := 1;
  SINGLE_TILE_COL := 2
|}.

(** The perimeter offset in metres, as [add_corner_magnets] converts it. *)
Definition MAGNET_PERIM_OFFSET (cfg : Config) : Q :=
  MAGNET_PERIM_OFFSET_MM cfg / 1000.

(** ** Geometry of the host *)

Record Vec3 : Type := { vx : Q; vy : Q; vz : Q }.

(** The rows of a 4x4 [matrix_world] that act on a 3D vector. *)
Record Matrix : Type := {
  row_x : Q * Q * Q * Q;
  row_y : Q * Q * Q * Q;
  row_z : Q * Q * Q * Q
}.

Definition identity_matrix : Matrix := {|
  row_x := (1, 0, 0, 0);
  row_y := (0, 1, 0, 0);
  row_z := (0, 0, 1, 0)
|}.

Definition row_dot (r : Q * Q * Q * Q) (v : Vec3) : Q :=
  let '(a, b, c, d) := r in a * vx v + b * vy v + c * vz v + d.

(** [m @ v] for a 4x4 matrix and a 3D vector. *)
Definition mat_apply (m : Matrix) (v : Vec3) : Vec3 :=
  {| vx := row_dot (row_x m) v; vy := row_dot (row_y m) v; vz := row_dot (row_z m) v |}.

(** The imported city object: [obj.name], [obj.matrix_world],
    [obj.data.vertices] (the [co] of each). *)
Record CityObj : Type := {
  city_name : string;
  matrix_world : Matrix;
  vertices : list Vec3
}.

(** ** Section 1 of the script: UTILITIES *)

Definition tile_aabb (cfg : Config) (row col : Z) : Q * Q * Q * Q :=
  let min_x := inject_Z col * TILE_SIZE cfg in
  let max_x := inject_Z (col + 1) * TILE_SIZE cfg in
  let min_y := inject_Z row * TILE_SIZE cfg in
  let max_y := inject_Z (row + 1) * TILE_SIZE cfg in
  (min_x, max_x, min_y, max_y).

(** The filter of the list comprehension in [min_z_in_tile]. *)
Definition in_bounds (box : Q * Q * Q * Q) (v : Vec3) : bool :=
  let '(min_x, max_x, min_y, max_y) := box in
  (Qle_bool min_x (vx v) && Qle_bool (vx v) max_x)
  && (Qle_bool min_y (vy v) && Qle_bool (vy v) max_y).

Definition verts_world (city_obj : CityObj) : list Vec3 :=
  map (mat_apply (matrix_world city_obj)) (vertices city_obj).

Definition min_z_in_tile (cfg : Config) (city_obj : CityObj) (row col : Z) : option Q :=
  let zs := map vz (filter (in_bounds (tile_aabb cfg row col)) (verts_world city_obj)) in
  match zs with
  | [] => None
  | z0 :: rest => Some (py_min z0 rest)
  end.

Definition quantized_bottom (cfg : Config) (min_z : Q) : PyResult Q :=
  if negb (QUANTIZE_FILL cfg) then
    Ok (min_z - MIN_MODEL_BASE_DEPTH cfg - FILL_LAYER_THICKNESS cfg)
  else
    let step := FILL_LAYER_THICKNESS cfg in
    let pre_base := min_z - MIN_MODEL_BASE_DEPTH cfg in
    q <- py_truediv (pre_base - QUANTIZE_ANCHOR_Z cfg) step ;;
    let snapped := QUANTIZE_ANCHOR_Z cfg + inject_Z (Qfloor q) * step in
    Ok (snapped - EPS cfg).

(** ** Objects and boolean modifiers *)

Inductive Operation : Type := DIFFERENCE | UNION | INTERSECT.
Inductive Solver : Type := EXACT | FAST.

(** An object used as the operand of a boolean modifier: the city object,
    or a primitive made by [primitive_cylinder_add] / [primitive_cone_add]
    with the name the script gives it. *)
Inductive Cutter : Type :=
| City (city : CityObj)
| Cylinder (name : string) (radius depth : Q) (location : Vec3)
| Cone (name : string) (radius1 radius2 depth : Q) (location : Vec3).

Record Modifier : Type := {
  m_name : string;
  m_object : Cutter;
  m_operation : Operation;
  m_solver : Solver
}.

(** Mesh data of a tile: the cube of [primitive_cube_add], then one node
    per boolean modifier that has been applied. *)
Inductive Mesh : Type :=
| CubeMesh (size : Q)
| Boolean (op : Operation) (m : Mesh) (cutter : Cutter).

Record TileObj : Type := {
  o_name : string;
  o_location : Vec3;
  o_scale_z : Q;
  o_mesh : Mesh;
  o_modifiers : list Modifier
}.

(** What the script cannot decide itself. *)
Record Host : Type := {
  (** [bpy.ops.object.modifier_apply] raises [RuntimeError] on this
      modifier of this object *)
  modifier_raises : TileObj -> Modifier -> bool;
  (** vertex coordinates after the edit-mode operators of
      [cleanup_normals] *)
  cleaned_vertices : list Vec3 -> list Vec3
}.

Definition with_name (o : TileObj) (n : string) : TileObj :=
  {| o_name := n; o_location := o_location o; o_scale_z := o_scale_z o;
     o_mesh := o_mesh o; o_modifiers := o_modifiers o |}.

Definition with_scale_z (o : TileObj) (s : Q) : TileObj :=
  {| o_name := o_name o; o_location := o_location o; o_scale_z := s;
     o_mesh := o_mesh o; o_modifiers := o_modifiers o |}.

Definition with_modifiers (o : TileObj) (ms : list Modifier) : TileObj :=
  {| o_name := o_name o; o_location := o_location o; o_scale_z := o_scale_z o;
     o_mesh := o_mesh o; o_modifiers := ms |}.

Definition with_mesh (o : TileObj) (m : Mesh) : TileObj :=
  {| o_name := o_name o; o_location := o_location o; o_scale_z := o_scale_z o;
     o_mesh := m; o_modifiers := o_modifiers o |}.

(** [bpy.ops.mesh.primitive_cube_add(size, location)] and the active
    object it leaves. *)
Definition primitive_cube_add (size : Q) (location : Vec3) : TileObj :=
  {| o_name := "Cube"; o_location := location; o_scale_z := 1;
     o_mesh := CubeMesh size; o_modifiers := [] |}.

Definition add_boolean (mod_owner : TileObj) (cutter : Cutter) (name : string)
  : TileObj :=
  let m := {| m_name := name; m_object := cutter;
              m_operation := DIFFERENCE; m_solver := EXACT |} in
  with_modifiers mod_owner (o_modifiers mod_owner ++ [m]).

(** [enumerate(l)]. *)
Fixpoint enumerate_from {A : Type} (i : Z) (l : list A) : list (Z * A) :=
  match l with
  | [] => []
  | a :: l' => (i, a) :: enumerate_from (i + 1)%Z l'
  end.

Definition enumerate {A : Type} (l : list A) : list (Z * A) := enumerate_from 0%Z l.

Definition extra : Q := 0.01.

(** One turn of the loop over the corners in [add_corner_magnets]. *)
Definition corner_step (cfg : Config) (row col : Z)
    (tile_bottom_z magnet_center_z depth : Q)
    (cube : TileObj) (ic : Z * (Q * Q)) : TileObj :=
  let '(i, (cx, cy)) := ic in
  let cyl :=
    Cylinder ("MagnetHole_" ++ py_str col ++ "_" ++ py_str row ++ "_" ++ py_str i)
             (MAGNET_RADIUS cfg) depth
             {| vx := cx; vy := cy; vz := magnet_center_z |} in
  let cube := add_boolean cube cyl ("MagnetHole_" ++ py_str i) in
  let cone_base_radius := py_max (MAGNET_RADIUS cfg - COUNTERSINK_SHOULDER cfg) 0.0005 in
  let cone_h := cone_base_radius in
  let cone_base_z := tile_bottom_z + MAGNET_HEIGHT cfg - 0.0005 in
  let cone_center_z := cone_base_z + cone_h / 2 in
  let cone :=
    Cone ("MagnetCountersink_" ++ py_str col ++ "_" ++ py_str row ++ "_" ++ py_str i)
         cone_base_radius 0 cone_h
         {| vx := cx; vy := cy; vz := cone_center_z |} in
  add_boolean cube cone ("MagnetCountersink_" ++ py_str i).

(** The first line of [add_corner_magnets]: the effective corner offset. *)
Definition offset_m (cfg : Config) : Q :=
  py_max (MAGNET_PERIM_OFFSET_MM cfg / 1000) (MAGNET_RADIUS cfg + MAGNET_SAFETY cfg).

Definition add_corner_magnets (cfg : Config) (cube : TileObj) (row col : Z)
    (x y z cube_height : Q) : TileObj :=
  let offset_m := offset_m cfg in
  let depth := MAGNET_HEIGHT cfg + extra in
  let tile_bottom_z := z - cube_height / 2 in
  let magnet_center_z := tile_bottom_z + MAGNET_HEIGHT cfg / 2 - extra / 2 in
  let half := TILE_SIZE cfg / 2 in
  let dx := half - offset_m in
  let dy := half - offset_m in
  let corners := [(x - dx, y - dy); (x + dx, y - dy); (x - dx, y + dy); (x + dx, y + dy)] in
  fold_left (corner_step cfg row col tile_bottom_z magnet_center_z depth)
            (enumerate corners) cube.

(** The first modifier of that name, and the stack without it. *)
Definition find_modifier (name : string) (ms : list Modifier) : option Modifier :=
  find (fun m => String.eqb (m_name m) name) ms.

Fixpoint remove_modifier (name : string) (ms : list Modifier) : list Modifier :=
  match ms with
  | [] => []
  | m :: ms' => if String.eqb (m_name m) name then ms' else m :: remove_modifier name ms'
  end.

(** [bpy.ops.object.modifier_apply(modifier=name)] on the active object:
    [None] stands for a [RuntimeError] (no modifier of that name, or the
    host fails on it), and then the object is as before. *)
Definition modifier_apply (h : Host) (obj : TileObj) (name : string) : option TileObj :=
  match find_modifier name (o_modifiers obj) with
  | None => None
  | Some m =>
      if modifier_raises h obj m then None
      else Some (with_modifiers
                   (with_mesh obj (Boolean (m_operation m) (o_mesh obj) (m_object m)))
                   (remove_modifier name (o_modifiers obj)))
  end.

(** The loop of [apply_modifiers]: [try ... except RuntimeError: pass]. *)
Fixpoint apply_names (h : Host) (obj : TileObj) (names : list string) : TileObj :=
  match names with
  | [] => obj
  | name :: names' =>
      match modifier_apply h obj name with
      | Some obj' => apply_names h obj' names'
      | None => apply_names h obj names'
      end
  end.

Definition apply_modifiers (h : Host) (obj : TileObj) (names : option (list string))
  : TileObj :=
  let names := match names with
               | None => map m_name (o_modifiers obj)
               | Some ns => ns
               end in
  apply_names h obj names.

(** What the path [OUTPUT_DIR] is on disk: nothing yet, a directory, a
    regular file, or nothing that this process may create. *)
Inductive DirState : Type := Absent | IsDirectory | IsFile | Denied.

(** What a run finds and leaves outside the scene: the lines printed and
    the files written, each with the tile object the export was made for.
    [city_mesh_file] is the object the STL importer makes of
    [CITY_MESH_PATH], [None] when there is no such file; [output_dir] is
    the state of [OUTPUT_DIR]. *)
Record World : Type := {
  city_mesh_file : option CityObj;
  output_dir : DirState;
  stdout : list string;
  files : list (string * TileObj)
}.

Definition print (w : World) (line : string) : World :=
  {| city_mesh_file := city_mesh_file w; output_dir := output_dir w;
     stdout := stdout w ++ [line]; files := files w |}.

(** [OUTPUT_DIR.mkdir(parents=True, exist_ok=True)]. *)
Definition mkdir (w : World) : PyResult World :=
  match output_dir w with
  | Absent | IsDirectory =>
      Ok {| city_mesh_file := city_mesh_file w; output_dir := IsDirectory;
            stdout := stdout w; files := files w |}
  | IsFile => Raise FileExistsError
  | Denied => Raise PermissionError
  end.

(** [OUTPUT_DIR.exists()]. *)
Definition output_dir_exists (w : World) : bool :=
  match output_dir w with
  | IsDirectory | IsFile => true
  | Absent | Denied => false
  end.

Definition export_tile (cfg : Config) (w : World) (obj : TileObj) (row col : Z)
  : World * string :=
  let out := OUTPUT_DIR cfg ++ "/" ++ "tile_" ++ py_str col ++ "_" ++ py_str row ++ ".stl" in
  ({| city_mesh_file := city_mesh_file w; output_dir := output_dir w;
      stdout := stdout w; files := files w ++ [(out, obj)] |}, out).

(** ** Section 2 of the script: MAIN *)

Definition process_tile (cfg : Config) (city_obj : CityObj) (row col : Z)
    (tiles : list TileObj) : PyResult (list TileObj) :=
  match min_z_in_tile cfg city_obj row col with
  | None => Ok tiles
  | Some min_z =>
      let x := inject_Z col * TILE_SIZE cfg + TILE_SIZE cfg / 2 in
      let y := inject_Z row * TILE_SIZE cfg + TILE_SIZE cfg / 2 in
      cube_bottom <- quantized_bottom cfg min_z ;;
      let cube_top := min_z + TILE_SIZE cfg / 2 in
      let cube_height := cube_top - cube_bottom in
      let z := cube_bottom + cube_height / 2 in
      let cube := primitive_cube_add (TILE_SIZE cfg) {| vx := x; vy := y; vz := z |} in
      let cube := with_name cube ("Tile_" ++ py_str col ++ "_" ++ py_str row) in
      scale_z <- py_truediv cube_height (TILE_SIZE cfg) ;;
      let cube := with_scale_z cube scale_z in
      let cube := add_boolean cube (City city_obj) "Difference" in
      let cube := add_corner_magnets cfg cube row col x y z cube_height in
      Ok (tiles ++ [cube])%list
  end.

(** [process_tile] over a sequence of indices, as the nested loops of
    [main] call it. *)
Fixpoint process_tiles (cfg : Config) (city_obj : CityObj) (idx : list (Z * Z))
    (tiles : list TileObj) : PyResult (list TileObj) :=
  match idx with
  | [] => Ok tiles
  | (r, c) :: idx' =>
      tiles' <- process_tile cfg city_obj r c tiles ;;
      process_tiles cfg city_obj idx' tiles'
  end.

(** [for r in range(TILES_Y): for c in range(TILES_X)]. *)
Definition grid_indices (cfg : Config) : list (Z * Z) :=
  flat_map (fun r => map (fun c => (r, c)) (py_range (TILES_X cfg))) (py_range (TILES_Y cfg)).

Definition ensure_dirs (w : World) : PyResult World :=
  w <- mkdir w ;;
  match city_mesh_file w with
  | None => Raise FileNotFoundError
  | Some _ =>
      if output_dir_exists w then Ok w else Raise FileNotFoundError
  end.

Definition import_city_mesh (w : World) : PyResult CityObj :=
  match city_mesh_file w with
  | None => Raise FileNotFoundError
  | Some obj =>
      Ok {| city_name := "CityMesh"; matrix_world := matrix_world obj;
            vertices := vertices obj |}
  end.

Definition cleanup_normals (h : Host) (obj : CityObj) : CityObj :=
  {| city_name := city_name obj; matrix_world := matrix_world obj;
     vertices := cleaned_vertices h (vertices obj) |}.

(** The names [main] collects for the second [apply_modifiers] call. *)
Definition magnet_mods (t : TileObj) : list string :=
  filter (fun n => startswith n "MagnetHole" || startswith n "MagnetCountersink")
         (map m_name (o_modifiers t)).

(** The two [apply_modifiers] calls [main] makes on a tile. *)
Definition apply_tile (h : Host) (t : TileObj) : TileObj :=
  let t := apply_modifiers h t (Some ["Difference"]) in
  apply_modifiers h t (Some (magnet_mods t)).

(** [int(t.name.split("_")[k])]. *)
Definition name_field (t : TileObj) (k : nat) : PyResult Z :=
  s <- py_index (py_split "_"%char (o_name t)) k ;;
  py_int s.

(** One turn of the loop [for t in tiles] that applies and exports. *)
Definition export_step (cfg : Config) (h : Host) (w : World) (t : TileObj)
  : PyResult World :=
  let t := apply_tile h t in
  row <- name_field t 2 ;;
  col <- name_field t 1 ;;
  let '(w, out) := export_tile cfg w t row col in
  Ok (print w ("Exported: " ++ out)).

Fixpoint export_loop (cfg : Config) (h : Host) (w : World) (tiles : list TileObj)
  : PyResult World :=
  match tiles with
  | [] => Ok w
  | t :: tiles' =>
      w' <- export_step cfg h w t ;;
      export_loop cfg h w' tiles'
  end.

Definition main (cfg : Config) (h : Host) (w : World) : PyResult World :=
  w <- ensure_dirs w ;;
  city <- import_city_mesh w ;;
  let city := cleanup_normals h city in
  tiles <- (if SINGLE_TILE_MODE cfg
            then process_tile cfg city (SINGLE_TILE_ROW cfg) (SINGLE_TILE_COL cfg) []
            else process_tiles cfg city (grid_indices cfg) []) ;;
  w <- export_loop cfg h w tiles ;;
  let count := if SINGLE_TILE_MODE cfg then 1%Z else (TILES_X cfg * TILES_Y cfg)%Z in
  Ok (print w ("Created " ++ py_str count ++
               " tile(s) with city cut, 2 cm-quantized underside, and four corner magnet holes.")).

(** ** Binary64 arithmetic, and the functions whose result depends on it

    The value of a finite float is a rational; [round] maps a rational to
    the nearest float, ties to even, with 53 bits of precision, gradual
    underflow below [2^-1022] and overflow to an infinity from [2^1024].
    The signs of zeros are not kept: no operation of the script tells
    [0.0] from [-0.0]. *)

Module B64.

Inductive float : Type :=
| Fin (q : Q)
| Inf (negative : bool)
| NaN.

Definition pow2 (e : Z) : Q := 2 ^ e.

(** [floor (log2 x)], for positive [x]. *)
Definition ilog2 (x : Q) : Z :=
  let k := (Z.log2 (Qnum x) - Z.log2 (Zpos (Qden x)))%Z in
  if Qle_bool (pow2 k) x then k else (k - 1)%Z.

(** The nearest integer, ties to even. *)
Definition rne (y : Q) : Z :=
  let f := Qfloor y in
  match Qcompare (y - inject_Z f) (1 # 2) with
  | Lt => f
  | Gt => (f + 1)%Z
  | Eq => if Z.even f then f else (f + 1)%Z
  end.

Definition round (x : Q) : float :=
  if Qeq_bool x 0 then Fin 0
  else
    let e := Z.max (ilog2 (Qabs x) - 52) (-1074) in
    let r := inject_Z (rne (x / pow2 e)) * pow2 e in
    if Qle_bool (pow2 1024) (Qabs r) then Inf (Qlt_bool x 0) else Fin (Qred r).

(** A decimal literal of the source. *)
Definition lit (q : Q) : float := round q.

Definition fneg (a : float) : float :=
  match a with
  | Fin q => Fin (- q)
  | Inf s => Inf (negb s)
  | NaN => NaN
  end.

Definition fadd (a b : float) : float :=
  match a, b with
  | Fin x, Fin y => round (x + y)
  | Fin _, Inf s => Inf s
  | Inf s, Fin _ => Inf s
  | Inf s, Inf s' => if Bool.eqb s s' then Inf s else NaN
  | _, _ => NaN
  end.

Definition fsub (a b : float) : float := fadd a (fneg b).

Definition fmul (a b : float) : float :=
  match a, b with
  | Fin x, Fin y => round (x * y)
  | Fin x, Inf s => if Qeq_bool x 0 then NaN else Inf (xorb (Qlt_bool x 0) s)
  | Inf s, Fin y => if Qeq_bool y 0 then NaN else Inf (xorb s (Qlt_bool y 0))
  | Inf s, Inf s' => Inf (xorb s s')
  | _, _ => NaN
  end.

Definition is_zero (a : float) : bool :=
  match a with
  | Fin q => Qeq_bool q 0
  | _ => false
  end.

(** [a / b] on floats: Python raises on a zero divisor. *)
Definition truediv (a b : float) : PyResult float :=
  if is_zero b then Raise ZeroDivisionError
  else Ok match a, b with
          | Fin x, Fin y => round (x / y)
          | Fin _, Inf _ => Fin 0
          | Inf s, Fin y => Inf (xorb s (Qlt_bool y 0))
          | _, _ => NaN
          end.

(** [math.floor]: an [int], or an exception on an infinity or a NaN. *)
Definition floor (a : float) : PyResult Z :=
  match a with
  | Fin q => Ok (Qfloor q)
  | Inf _ => Raise OverflowError
  | NaN => Raise ValueError
  end.

(** The conversion of the [int] operand of a mixed product. *)
Definition float_of_int (n : Z) : PyResult float :=
  match round (inject_Z n) with
  | Inf _ => Raise OverflowError
  | r => Ok r
  end.

(** [n * a] with [n] an [int] and [a] a [float]. *)
Definition int_mul (n : Z) (a : float) : PyResult float :=
  f <- float_of_int n ;;
  Ok (fmul f a).

(** The settings read by the two functions below. *)
Record Config : Type := {
  TILE_SIZE : float;
  MIN_MODEL_BASE_DEPTH : float;
  FILL_LAYER_THICKNESS : float;
  QUANTIZE_FILL : bool;
  QUANTIZE_ANCHOR_Z : float;
  EPS : float
}.

Definition default_config : Config := {|
  TILE_SIZE := lit 0.20;
  MIN_MODEL_BASE_DEPTH := lit 0.005;
  FILL_LAYER_THICKNESS := lit 0.02;
  QUANTIZE_FILL := true;
  QUANTIZE_ANCHOR_Z := lit 0;
  EPS := lit 0.000001
|}.

Definition tile_aabb (cfg : Config) (row col : Z)
    : PyResult (float * float * float * float) :=
  min_x <- int_mul col (TILE_SIZE cfg) ;;
  max_x <- int_mul (col + 1) (TILE_SIZE cfg) ;;
  min_y <- int_mul row (TILE_SIZE cfg) ;;
  max_y <- int_mul (row + 1) (TILE_SIZE cfg) ;;
  Ok (min_x, max_x, min_y, max_y).

Definition quantized_bottom (cfg : Config) (min_z : float) : PyResult float :=
  if negb (QUANTIZE_FILL cfg) then
    Ok (fsub (fsub min_z (MIN_MODEL_BASE_DEPTH cfg)) (FILL_LAYER_THICKNESS cfg))
  else
    let step := FILL_LAYER_THICKNESS cfg in
    let pre_base := fsub min_z (MIN_MODEL_BASE_DEPTH cfg) in
    q <- truediv (fsub pre_base (QUANTIZE_ANCHOR_Z cfg)) step ;;
    k <- floor q ;;
    layers <- int_mul k step ;;
    let snapped := fadd (QUANTIZE_ANCHOR_Z cfg) layers in
    Ok (fsub snapped (EPS cfg)).

End B64.

(** ** A concrete run, used by the examples below *)

Definition sample_city : CityObj := {|
  city_name := "scaled_mesh";
  matrix_world := identity_matrix;
  vertices := [ {| vx := 0.45; vy := 0.25; vz := 0.137 |};
                {| vx := 0.50; vy := 0.30; vz := 0.150 |};
                {| vx := 0.10; vy := 0.10; vz := 0.050 |} ]
|}.

Definition sample_world : World :=
  {| city_mesh_file := Some sample_city; output_dir := Absent;
     stdout := []; files := [] |}.

Definition host_ok : Host :=
  {| modifier_raises := fun _ _ => false; cleaned_vertices := fun vs => vs |}.

Definition host_failing : Host :=
  {| modifier_raises := fun _ _ => true; cleaned_vertices := fun vs => vs |}.

(** ** Vocabulary of the statements *)

(** Equality of optional floats. *)
Definition option_Qeq (a b : option Q) : Prop :=
  match a, b with
  | None, None => True
  | Some x, Some y => x == y
  | _, _ => False
  end.

(** The city vertices, in world coordinates, that [min_z_in_tile] keeps. *)
Definition verts_in_tile (cfg : Config) (city_obj : CityObj) (row col : Z) : list Vec3 :=
  filter (in_bounds (tile_aabb cfg row col)) (verts_world city_obj).

(** Radius, depth and location of the cylinders among the cutters of a
    tile's modifier stack, in stack order. *)
Definition bores (t : TileObj) : list (Q * Q * Vec3) :=
  flat_map (fun m => match m_object m with
                     | Cylinder _ radius depth location => [(radius, depth, location)]
                     | _ => []
                     end)
           (o_modifiers t).

(** A cylinder primitive is centred on its location and extends half its
    depth up and down the Z axis. *)
Definition top_face (b : Q * Q * Vec3) : Q :=
  let '(_, depth, location) := b in vz location + depth / 2.

Definition bottom_face (b : Q * Q * Vec3) : Q :=
  let '(_, depth, location) := b in vz location - depth / 2.

(** [OUTPUT_DIR] is a directory or can be made one. *)
Definition output_dir_usable (w : World) : Prop :=
  output_dir w = Absent \/ output_dir w = IsDirectory.

(** The world once [OUTPUT_DIR] is a directory. *)
Definition with_output_dir (w : World) : World :=
  {| city_mesh_file := city_mesh_file w; output_dir := IsDirectory;
     stdout := stdout w; files := files w |}.

(** The city object [main] works with: imported, renamed, cleaned. *)
Definition city_of_run (h : Host) (obj : CityObj) : CityObj :=
  cleanup_normals h
    {| city_name := "CityMesh"; matrix_world := matrix_world obj;
       vertices := vertices obj |}.

(** The closing line [main] prints. *)
Definition created_line (cfg : Config) : string :=
  "Created " ++
  py_str (if SINGLE_TILE_MODE cfg then 1%Z else (TILES_X cfg * TILES_Y cfg)%Z) ++
  " tile(s) with city cut, 2 cm-quantized underside, and four corner magnet holes.".

(** The cube [process_tile] appends for a populated tile whose lowest
    vertex is [min_z], once [quantized_bottom] has returned [cube_bottom]
    and the division by [TILE_SIZE] has gone through. *)
Definition tile_of (cfg : Config) (city_obj : CityObj) (row col : Z)
    (min_z cube_bottom : Q) : TileObj :=
  let x := inject_Z col * TILE_SIZE cfg + TILE_SIZE cfg / 2 in
  let y := inject_Z row * TILE_SIZE cfg + TILE_SIZE cfg / 2 in
  let cube_top := min_z + TILE_SIZE cfg / 2 in
  let cube_height := cube_top - cube_bottom in
  let z := cube_bottom + cube_height / 2 in
  let cube := primitive_cube_add (TILE_SIZE cfg) {| vx := x; vy := y; vz := z |} in
  let cube := with_name cube ("Tile_" ++ py_str col ++ "_" ++ py_str row) in
  let cube := with_scale_z cube (cube_height / TILE_SIZE cfg) in
  let cube := add_boolean cube (City city_obj) "Difference" in
  add_corner_magnets cfg cube row col x y z cube_height.

(** The names [main] hands to [modifier_apply] for one tile, in order. *)
Definition subtraction_names (h : Host) (t : TileObj) : list string :=
  "Difference" :: magnet_mods (apply_modifiers h t (Some ["Difference"])).

(** [p] occurs in [s]. *)
Fixpoint is_infix (p s : string) : bool :=
  String.prefix p s
  || match s with
     | EmptyString => false
     | String _ s' => is_infix p s'
     end.

(** The step [name] of a tile is attempted by [main] and the host raises
    on it. *)
Definition step_fails (h : Host) (t : TileObj) (name : string) : Prop :=
  exists before after,
    subtraction_names h t = (before ++ name :: after)%list
    /\ modifier_apply h (apply_names h t before) name = None.

(** The default configuration with the sign of the base depth wrong. *)
Definition inverted_config : Config := {|
  TILE_SIZE := 0.20;
  TILES_X := 3;
  TILES_Y := 5;
  CITY_MESH_PATH := "output/scaled_mesh.stl";
  OUTPUT_DIR := "output/tiles";
  MIN_MODEL_BASE_DEPTH := -0.2;
  FILL_LAYER_THICKNESS := 0.02;
  QUANTIZE_FILL := true;
  QUANTIZE_ANCHOR_Z := 0;
  EPS := 0.000001;
  MAGNET_RADIUS := 0.005;
  MAGNET_HEIGHT := 0.002;
  MAGNET_PERIM_OFFSET_MM := 4;
  MAGNET_SAFETY := 0.001;
  COUNTERSINK_SHOULDER := 0.001;
  SINGLE_TILE_MODE := true;
  SINGLE_TILE_ROW := 1;
  SINGLE_TILE_COL := 2
|}.

(** The configuration with another grid size. *)
Definition with_grid (cfg : Config) (tiles_x tiles_y : Z) : Config := {|
  TILE_SIZE := TILE_SIZE cfg;
  TILES_X := tiles_x;
  TILES_Y := tiles_y;
  CITY_MESH_PATH := CITY_MESH_PATH cfg;
  OUTPUT_DIR := OUTPUT_DIR cfg;
  MIN_MODEL_BASE_DEPTH := MIN_MODEL_BASE_DEPTH cfg;
  FILL_LAYER_THICKNESS := FILL_LAYER_THICKNESS cfg;
  QUANTIZE_FILL := QUANTIZE_FILL cfg;
  QUANTIZE_ANCHOR_Z := QUANTIZE_ANCHOR_Z cfg;
  EPS := EPS cfg;
  MAGNET_RADIUS := MAGNET_RADIUS cfg;
  MAGNET_HEIGHT := MAGNET_HEIGHT cfg;
  MAGNET_PERIM_OFFSET_MM := MAGNET_PERIM_OFFSET_MM cfg;
  MAGNET_SAFETY := MAGNET_SAFETY cfg;
  COUNTERSINK_SHOULDER := COUNTERSINK_SHOULDER cfg;
  SINGLE_TILE_MODE := SINGLE_TILE_MODE cfg;
  SINGLE_TILE_ROW := SINGLE_TILE_ROW cfg;
  SINGLE_TILE_COL := SINGLE_TILE_COL cfg
|}.

(** C2 as the specification words it: a populated tile whose underside is
    not below its top is given up, and the batch goes on without it. *)
Definition enclosure_rejected (cfg : Config) (city_obj : CityObj) (row col : Z) : Prop :=
  forall min_z bottom_z tiles,
    min_z_in_tile cfg city_obj row col = Some min_z ->
    quantized_bottom cfg min_z = Ok bottom_z ->
    min_z + TILE_SIZE cfg / 2 <= bottom_z ->
    process_tile cfg city_obj row col tiles = Ok tiles.


(** C6 as the specification words it: every failing step of a tile shows
    in a printed line that names it. *)
Definition failures_are_logged (cfg : Config) (h : Host) (w : World) (t : TileObj)
  : Prop :=
  forall name w',
    step_fails h t name ->
    export_step cfg h w t = Ok w' ->
    exists line, In line (stdout w') /\ is_infix name line = true.

(** C7 as the specification words it: each bore of a populated tile has
    the magnet radius, depth [MAGNET_HEIGHT + extra], and its top face in
    the plane of the underside. *)
Definition bores_flush_with_underside (cfg : Config) (city_obj : CityObj)
    (row col : Z) : Prop :=
  forall min_z bottom_z t,
    min_z_in_tile cfg city_obj row col = Some min_z ->
    quantized_bottom cfg min_z = Ok bottom_z ->
    process_tile cfg city_obj row col [] = Ok [t] ->
    Forall (fun b => fst (fst b) == MAGNET_RADIUS cfg
                     /\ snd (fst b) == MAGNET_HEIGHT cfg + extra
                     /\ top_face b == bottom_z)
           (bores t).

(** ** Vocabulary of the further properties *)

(** The name [process_tile] gives the cube of an index, and the path
    [export_tile] writes it to. *)
Definition tile_name (row col : Z) : string :=
  "Tile_" ++ py_str col ++ "_" ++ py_str row.

Definition tile_path (cfg : Config) (row col : Z) : string :=
  OUTPUT_DIR cfg ++ "/" ++ "tile_" ++ py_str col ++ "_" ++ py_str row ++ ".stl".

(** [min_z_in_tile] finds a vertex for the index [(row, col)]. *)
Definition populated (cfg : Config) (city_obj : CityObj) (rc : Z * Z) : bool :=
  match min_z_in_tile cfg city_obj (fst rc) (snd rc) with
  | Some _ => true
  | None => false
  end.

(** Neither division of the pipeline has a zero divisor. *)
Definition divisors_nonzero (cfg : Config) : Prop :=
  ~ TILE_SIZE cfg == 0
  /\ (QUANTIZE_FILL cfg = true -> ~ FILL_LAYER_THICKNESS cfg == 0).

(** The cutters subtracted from a mesh so far, first applied first. *)
Fixpoint mesh_cutters (m : Mesh) : list Cutter :=
  match m with
  | CubeMesh _ => []
  | Boolean _ m' cutter => (mesh_cutters m' ++ [cutter])%list
  end.

(** The side of the cube a mesh started from. *)
Fixpoint base_size (m : Mesh) : Q :=
  match m with
  | CubeMesh size => size
  | Boolean _ m' _ => base_size m'
  end.

(** Extent of a tile's cube: a cube primitive of side [size] is centred
    on the object's location, and the object's Z scale multiplies its
    height. *)
Definition x_low (t : TileObj) : Q := vx (o_location t) - base_size (o_mesh t) / 2.
Definition x_high (t : TileObj) : Q := vx (o_location t) + base_size (o_mesh t) / 2.
Definition y_low (t : TileObj) : Q := vy (o_location t) - base_size (o_mesh t) / 2.
Definition y_high (t : TileObj) : Q := vy (o_location t) + base_size (o_mesh t) / 2.
Definition z_low (t : TileObj) : Q :=
  vz (o_location t) - base_size (o_mesh t) * o_scale_z t / 2.
Definition z_high (t : TileObj) : Q :=
  vz (o_location t) + base_size (o_mesh t) * o_scale_z t / 2.


(** The city object with other vertices. *)
Definition with_vertices (city_obj : CityObj) (vs : list Vec3) : CityObj :=
  {| city_name := city_name city_obj; matrix_world := matrix_world city_obj;
     vertices := vs |}.

(** The lesser of two optional heights, [None] standing for no vertex. *)
Definition option_min (a b : option Q) : option Q :=
  match a, b with
  | None, _ => b
  | _, None => a
  | Some x, Some y => Some (py_min x [y])
  end.

(** The indices a run of [main] hands to [process_tile], in order. *)
Definition run_indices (cfg : Config) : list (Z * Z) :=
  if SINGLE_TILE_MODE cfg then [(SINGLE_TILE_ROW cfg, SINGLE_TILE_COL cfg)]
  else grid_indices cfg.

(** The line [main] prints after exporting the tile of an index. *)
Definition exported_line (cfg : Config) (rc : Z * Z) : string :=
  "Exported: " ++ tile_path cfg (fst rc) (snd rc).

(** The shipped configuration in full-grid mode. *)
Definition grid_config : Config := {|
  TILE_SIZE := 0.20;
  TILES_X := 3;
  TILES_Y := 5;
  CITY_MESH_PATH := "output/scaled_mesh.stl";
  OUTPUT_DIR := "output/tiles";
  MIN_MODEL_BASE_DEPTH := 0.005;
  FILL_LAYER_THICKNESS := 0.02;
  QUANTIZE_FILL := true;
  QUANTIZE_ANCHOR_Z := 0;
  EPS := 0.000001;
  MAGNET_RADIUS := 0.005;
  MAGNET_HEIGHT := 0.002;
  MAGNET_PERIM_OFFSET_MM := 4;
  MAGNET_SAFETY := 0.001;
  COUNTERSINK_SHOULDER := 0.001;
  SINGLE_TILE_MODE := false;
  SINGLE_TILE_ROW := 1;
  SINGLE_TILE_COL := 2
|}.

(** Scenario C: the shipped configuration with a perimeter offset of 1 mm. *)
Definition clamp_config : Config := {|
  TILE_SIZE := 0.20;
  TILES_X := 3;
  TILES_Y := 5;
  CITY_MESH_PATH := "output/scaled_mesh.stl";
  OUTPUT_DIR := "output/tiles";
  MIN_MODEL_BASE_DEPTH := 0.005;
  FILL_LAYER_THICKNESS := 0.02;
  QUANTIZE_FILL := true;
  QUANTIZE_ANCHOR_Z := 0;
  EPS := 0.000001;
  MAGNET_RADIUS := 0.005;
  MAGNET_HEIGHT := 0.002;
  MAGNET_PERIM_OFFSET_MM := 1;
  MAGNET_SAFETY := 0.001;
  COUNTERSINK_SHOULDER := 0.001;
  SINGLE_TILE_MODE := true;
  SINGLE_TILE_ROW := 1;
  SINGLE_TILE_COL := 2
|}.

(** ** Binary64: constants of the error analysis and the formulas of the
    specification read in exact arithmetic *)

(** Half a unit in the last place of 1, and half the smallest subnormal. *)
Definition ulp_half : Q := Eval vm_compute in B64.pow2 (-53).
Definition eta : Q := Eval vm_compute in B64.pow2 (-1075).

Definition two_1023 : Q := Eval vm_compute in B64.pow2 1023.
Definition two_1004 : Q := Eval vm_compute in B64.pow2 1004.
Definition two_500 : Q := Eval vm_compute in B64.pow2 500.
Definition two_m500 : Q := Eval vm_compute in B64.pow2 (-500).
Definition two_m48 : Q := Eval vm_compute in B64.pow2 (-48).

(** [QUANTIZE_ANCHOR_Z + floor((min_z - MIN_MODEL_BASE_DEPTH -
    QUANTIZE_ANCHOR_Z) / FILL_LAYER_THICKNESS) * FILL_LAYER_THICKNESS - EPS]
    in exact arithmetic, on the values of the floats. *)
Definition snapped_exactly (cfg : B64.Config) (min_z : B64.float) : option Q :=
  match min_z, B64.MIN_MODEL_BASE_DEPTH cfg, B64.FILL_LAYER_THICKNESS cfg,
        B64.QUANTIZE_ANCHOR_Z cfg, B64.EPS cfg with
  | B64.Fin z, B64.Fin d, B64.Fin s, B64.Fin a, B64.Fin e =>
      Some (a + inject_Z (Qfloor ((z - d - a) / s)) * s - e)
  | _, _, _, _, _ => None
  end.

(** [min_z - MIN_MODEL_BASE_DEPTH] in exact arithmetic. *)
Definition base_plane (cfg : B64.Config) (min_z : B64.float) : option Q :=
  match min_z, B64.MIN_MODEL_BASE_DEPTH cfg with
  | B64.Fin z, B64.Fin d => Some (z - d)
  | _, _ => None
  end.

(** [min_z - MIN_MODEL_BASE_DEPTH - FILL_LAYER_THICKNESS - EPS] in exact
    arithmetic. *)
Definition one_layer_below (cfg : B64.Config) (min_z : B64.float) : option Q :=
  match min_z, B64.MIN_MODEL_BASE_DEPTH cfg, B64.FILL_LAYER_THICKNESS cfg, B64.EPS cfg with
  | B64.Fin z, B64.Fin d, B64.Fin s, B64.Fin e => Some (z - d - s - e)
  | _, _, _, _ => None
  end.

(** [cfg] with another [EPS]. *)
Definition with_eps (cfg : B64.Config) (eps : B64.float) : B64.Config :=
  {| B64.TILE_SIZE := B64.TILE_SIZE cfg;
     B64.MIN_MODEL_BASE_DEPTH := B64.MIN_MODEL_BASE_DEPTH cfg;
     B64.FILL_LAYER_THICKNESS := B64.FILL_LAYER_THICKNESS cfg;
     B64.QUANTIZE_FILL := B64.QUANTIZE_FILL cfg;
     B64.QUANTIZE_ANCHOR_Z := B64.QUANTIZE_ANCHOR_Z cfg;
     B64.EPS := eps |}.

(** [cfg] with another layer thickness. *)
Definition with_step (cfg : B64.Config) (step : B64.float) : B64.Config :=
  {| B64.TILE_SIZE := B64.TILE_SIZE cfg;
     B64.MIN_MODEL_BASE_DEPTH := B64.MIN_MODEL_BASE_DEPTH cfg;
     B64.FILL_LAYER_THICKNESS := step;
     B64.QUANTIZE_FILL := B64.QUANTIZE_FILL cfg;
     B64.QUANTIZE_ANCHOR_Z := B64.QUANTIZE_ANCHOR_Z cfg;
     B64.EPS := B64.EPS cfg |}.

(** * Properties *)

(** ** The exact-arithmetic core of the quantizer *)

Lemma Qeq_bool_false_iff (a b : Q) : Qeq_bool a b = false <-> ~ a == b.
Proof.
  split.
  - intros Hb He. apply Qeq_bool_iff in He. congruence.
  - intros Hn. destruct (Qeq_bool a b) eqn:E; [|reflexivity].
    apply Qeq_bool_iff in E. contradiction.
Qed.

Lemma Qlt_bool_iff (a b : Q) : Qlt_bool a b = true <-> a < b.
Proof.
  unfold Qlt_bool. rewrite negb_true_iff. split.
  - intros Hb. apply Qnot_le_lt. intros Hle.
    apply Qle_bool_iff in Hle. congruence.
  - intros Hlt. destruct (Qle_bool b a) eqn:E; [|reflexivity].
    apply Qle_bool_iff in E. lra.
Qed.

Lemma Qlt_bool_false_iff (a b : Q) : Qlt_bool a b = false <-> b <= a.
Proof.
  unfold Qlt_bool. rewrite negb_false_iff. apply Qle_bool_iff.
Qed.

Lemma py_truediv_ok (a b : Q) : ~ b == 0 -> py_truediv a b = Ok (a / b).
Proof.
  intros Hb. unfold py_truediv.
  apply Qeq_bool_false_iff in Hb. now rewrite Hb.
Qed.

(** Snapping [a] down to the grid of step [s]: at most [a], and less than
    one step below it. *)
Lemma floor_step_bounds (a s : Q) :
  0 < s ->
  inject_Z (Qfloor (a / s)) * s <= a /\ a - s < inject_Z (Qfloor (a / s)) * s.
Proof.
  intros Hs.
  assert (Ha : a == (a / s) * s) by (field; lra).
  pose proof (Qfloor_le (a / s)) as Hlo.
  pose proof (Qlt_floor (a / s)) as Hhi.
  rewrite inject_Z_plus in Hhi.
  set (q := a / s) in *. set (f := inject_Z (Qfloor q)) in *.
  split.
  - rewrite Ha. apply Qmult_le_compat_r; lra.
  - assert (Hm : q * s < (f + inject_Z 1) * s)
      by (apply Qmult_lt_compat_r; assumption).
    rewrite <- Ha in Hm.
    assert (Hd : (f + inject_Z 1) * s == f * s + s) by (unfold inject_Z; ring).
    rewrite Hd in Hm. lra.
Qed.

Lemma quantized_bottom_on (cfg : Config) (min_z : Q) :
  QUANTIZE_FILL cfg = true ->
  ~ FILL_LAYER_THICKNESS cfg == 0 ->
  quantized_bottom cfg min_z =
  Ok (QUANTIZE_ANCHOR_Z cfg
      + inject_Z (Qfloor ((min_z - MIN_MODEL_BASE_DEPTH cfg - QUANTIZE_ANCHOR_Z cfg)
                          / FILL_LAYER_THICKNESS cfg))
        * FILL_LAYER_THICKNESS cfg
      - EPS cfg).
Proof.
  intros Hq Hs. unfold quantized_bottom. rewrite Hq. simpl negb. cbv iota.
  rewrite py_truediv_ok by assumption. reflexivity.
Qed.

Lemma quantized_bottom_off (cfg : Config) (min_z : Q) :
  QUANTIZE_FILL cfg = false ->
  quantized_bottom cfg min_z =
  Ok (min_z - MIN_MODEL_BASE_DEPTH cfg - FILL_LAYER_THICKNESS cfg).
Proof.
  intros Hq. unfold quantized_bottom. now rewrite Hq.
Qed.

Lemma quantized_bottom_upper_bound (cfg : Config) (min_z : Q) :
  0 < FILL_LAYER_THICKNESS cfg ->
  0 <= EPS cfg ->
  exists bottom_z,
    quantized_bottom cfg min_z = Ok bottom_z
    /\ bottom_z <= min_z - MIN_MODEL_BASE_DEPTH cfg.
Proof.
  intros Hs He.
  destruct (QUANTIZE_FILL cfg) eqn:Hq.
  - eexists. split; [apply quantized_bottom_on; [assumption | lra]|].
    destruct (floor_step_bounds
                (min_z - MIN_MODEL_BASE_DEPTH cfg - QUANTIZE_ANCHOR_Z cfg)
                (FILL_LAYER_THICKNESS cfg) Hs) as [Hle _].
    lra.
  - eexists. split; [apply quantized_bottom_off; assumption|]. lra.
Qed.

(** ** Binary64 rounding *)

Lemma pow2_pos (e : Z) : 0 < B64.pow2 e.
Proof. unfold B64.pow2. apply Qpower_0_lt. reflexivity. Qed.

Lemma pow2_plus (a b : Z) : B64.pow2 (a + b) == B64.pow2 a * B64.pow2 b.
Proof. unfold B64.pow2. apply Qpower_plus. discriminate. Qed.

Lemma pow2_le (a b : Z) : (a <= b)%Z -> B64.pow2 a <= B64.pow2 b.
Proof. intros H. unfold B64.pow2. apply Qpower_le_compat_l; [exact H | discriminate]. Qed.

Lemma pow2_inject (n : Z) : (0 <= n)%Z -> inject_Z (2 ^ n) == B64.pow2 n.
Proof. intros H. unfold B64.pow2. now rewrite Zpower_Qpower. Qed.

Lemma Qinv_le_antitone (a b : Q) : 0 < a -> a <= b -> / b <= / a.
Proof.
  intros Ha Hab. apply Qle_shift_inv_l; [exact Ha|].
  rewrite Qmult_comm. apply Qle_shift_div_r; lra.
Qed.

Lemma ilog2_le (x : Q) : 0 < x -> B64.pow2 (B64.ilog2 x) <= x.
Proof.
  intros Hx. unfold B64.ilog2.
  set (k := (Z.log2 (Qnum x) - Z.log2 (Zpos (Qden x)))%Z).
  destruct (Qle_bool (B64.pow2 k) x) eqn:E; [now apply Qle_bool_iff|].
  destruct x as [n d]. simpl Qnum in *. simpl Qden in *.
  assert (Hn : (0 < n)%Z) by (unfold Qlt in Hx; simpl in Hx; lia).
  destruct (Z.log2_spec n Hn) as [Hn1 _].
  destruct (Z.log2_spec (Zpos d) (Pos2Z.is_pos d)) as [_ Hd2].
  set (ln := Z.log2 n) in *. set (ld := Z.log2 (Zpos d)) in *.
  assert (Hln : (0 <= ln)%Z) by apply Z.log2_nonneg.
  assert (Hld : (0 <= ld)%Z) by apply Z.log2_nonneg.
  replace (k - 1)%Z with (ln + - (ld + 1))%Z by (unfold k; lia).
  rewrite pow2_plus. unfold B64.pow2 at 2. rewrite Qpower_opp. fold (B64.pow2 (ld + 1)).
  rewrite <- !pow2_inject by lia.
  rewrite (Qmake_Qdiv n d). unfold Qdiv.
  assert (H1 : inject_Z (2 ^ ln) <= inject_Z n) by now rewrite <- Zle_Qle.
  assert (H2 : / inject_Z (2 ^ Z.succ ld) <= / inject_Z (Zpos d)).
  { apply Qinv_le_antitone.
    - rewrite <- (Zlt_Qlt 0). lia.
    - rewrite <- Zle_Qle. lia. }
  assert (H3 : 0 < inject_Z (2 ^ ln)).
  { rewrite <- (Zlt_Qlt 0). apply Z.pow_pos_nonneg; lia. }
  assert (H4 : 0 < / inject_Z (2 ^ Z.succ ld)).
  { apply Qinv_lt_0_compat. rewrite <- (Zlt_Qlt 0). apply Z.pow_pos_nonneg; lia. }
  change (ld + 1)%Z with (Z.succ ld).
  apply Qle_trans with (inject_Z n * / inject_Z (2 ^ Z.succ ld)).
  - apply Qmult_le_compat_r; lra.
  - rewrite !(Qmult_comm (inject_Z n)). apply Qmult_le_compat_r; lra.
Qed.

Lemma rne_error (y : Q) : Qabs (inject_Z (B64.rne y) - y) <= 1 # 2.
Proof.
  unfold B64.rne.
  pose proof (Qfloor_le y) as Hlo. pose proof (Qlt_floor y) as Hhi.
  rewrite inject_Z_plus in Hhi. change (inject_Z 1) with 1 in Hhi.
  set (f := Qfloor y) in *.
  apply Qabs_Qle_condition.
  destruct (Qcompare (y - inject_Z f) (1 # 2)) eqn:E.
  - apply Qeq_alt in E. destruct (Z.even f).
    + lra.
    + rewrite inject_Z_plus. change (inject_Z 1) with 1. lra.
  - apply Qlt_alt in E. lra.
  - apply Qgt_alt in E. rewrite inject_Z_plus. change (inject_Z 1) with 1. lra.
Qed.

Lemma ulp_half_eq : ulp_half == B64.pow2 (-53).
Proof. vm_compute. reflexivity. Qed.
Lemma eta_eq : eta == B64.pow2 (-1075).
Proof. vm_compute. reflexivity. Qed.

(** Half the grid step chosen by [B64.round] is within the error budget. *)
Lemma half_step_bound (x : Q) :
  ~ x == 0 ->
  B64.pow2 (Z.max (B64.ilog2 (Qabs x) - 52) (-1074)) * (1 # 2) <= ulp_half * Qabs x + eta.
Proof.
  intros Hx.
  assert (Hpos : 0 < Qabs x).
  { destruct (Qlt_le_dec 0 (Qabs x)) as [H|H]; [exact H|].
    exfalso. apply Hx. pose proof (Qabs_nonneg x).
    assert (Qabs x == 0) by lra. 
    revert H1. apply Qabs_case; intros; lra. }
  pose proof (ilog2_le _ Hpos) as HE.
  set (E := B64.ilog2 (Qabs x)) in *.
  assert (Hh : (1 # 2) == B64.pow2 (-1)) by reflexivity.
  rewrite Hh, <- pow2_plus.
  pose proof (pow2_pos (-53)). pose proof (pow2_pos (-1075)).
  rewrite ulp_half_eq, eta_eq.
  destruct (Z.max_spec (E - 52) (-1074)) as [[_ ->]|[_ ->]].
  - change (-1074 + -1)%Z with (-1075)%Z.
    assert (0 <= B64.pow2 (-53) * Qabs x) by (apply Qmult_le_0_compat; lra).
    lra.
  - replace (E - 52 + -1)%Z with (-53 + E)%Z by lia.
    rewrite pow2_plus.
    assert (B64.pow2 (-53) * B64.pow2 E <= B64.pow2 (-53) * Qabs x).
    { rewrite !(Qmult_comm (B64.pow2 (-53))). apply Qmult_le_compat_r; lra. }
    lra.
Qed.

Lemma round_error (x r : Q) :
  B64.round x = B64.Fin r -> Qabs (r - x) <= ulp_half * Qabs x + eta.
Proof.
  unfold B64.round.
  destruct (Qeq_bool x 0) eqn:E0.
  - apply Qeq_bool_iff in E0. intros [= <-]. rewrite E0. vm_compute. discriminate.
  - assert (Hx : ~ x == 0).
    { intros H. apply Qeq_bool_iff in H. congruence. }
    set (e := Z.max (B64.ilog2 (Qabs x) - 52) (-1074)).
    destruct (Qle_bool (B64.pow2 1024) _); [discriminate|].
    intros H.
    assert (Hr' : r = Qred (inject_Z (B64.rne (x / B64.pow2 e)) * B64.pow2 e)) by congruence.
    rewrite Hr', Qred_correct. clear H Hr'.
    pose proof (rne_error (x / B64.pow2 e)) as Hr.
    pose proof (pow2_pos e) as Hp.
    assert (Heq : inject_Z (B64.rne (x / B64.pow2 e)) * B64.pow2 e - x
                  == (inject_Z (B64.rne (x / B64.pow2 e)) - x / B64.pow2 e) * B64.pow2 e)
      by (field; lra).
    rewrite Heq, Qabs_Qmult, (Qabs_pos (B64.pow2 e)) by lra.
    eapply Qle_trans; [|apply (half_step_bound x Hx)]. fold e.
    rewrite (Qmult_comm (B64.pow2 e)). apply Qmult_le_compat_r; lra.
Qed.

Lemma round_finite (x : Q) :
  Qabs x <= B64.pow2 1023 -> exists r, B64.round x = B64.Fin r.
Proof.
  intros Hb. unfold B64.round.
  destruct (Qeq_bool x 0) eqn:E0; [eexists; reflexivity|].
  assert (Hx : ~ x == 0).
  { intros H. apply Qeq_bool_iff in H. congruence. }
  set (e := Z.max (B64.ilog2 (Qabs x) - 52) (-1074)).
  set (r := inject_Z (B64.rne (x / B64.pow2 e)) * B64.pow2 e).
  destruct (Qle_bool (B64.pow2 1024) (Qabs r)) eqn:Eo; [|eexists; reflexivity].
  exfalso. apply Qle_bool_iff in Eo.
  pose proof (rne_error (x / B64.pow2 e)) as Hr.
  pose proof (pow2_pos e) as Hp.
  assert (Heq : r - x == (inject_Z (B64.rne (x / B64.pow2 e)) - x / B64.pow2 e) * B64.pow2 e)
    by (unfold r; field; lra).
  assert (Herr : Qabs (r - x) <= ulp_half * Qabs x + eta).
  { rewrite Heq, Qabs_Qmult, (Qabs_pos (B64.pow2 e)) by lra.
    eapply Qle_trans; [|apply (half_step_bound x Hx)]. fold e.
    rewrite (Qmult_comm (B64.pow2 e)). apply Qmult_le_compat_r; lra. }
  pose proof (Qabs_triangle (r - x) x) as Ht.
  assert (Hrx : r - x + x == r) by ring. rewrite Hrx in Ht.
  assert (H1023 : B64.pow2 1024 == 2 * B64.pow2 1023).
  { change 1024%Z with (1 + 1023)%Z. rewrite pow2_plus. reflexivity. }
  pose proof (pow2_pos 1023) as Hp1023.
  assert (Hu : ulp_half * Qabs x <= ulp_half * B64.pow2 1023).
  { rewrite !(Qmult_comm ulp_half). apply Qmult_le_compat_r; [exact Hb|]. vm_compute. discriminate. }
  assert (Hone : 1 <= B64.pow2 1023).
  { change 1 with (B64.pow2 0). apply pow2_le. lia. }
  assert (Heta : eta <= 1 # 4) by (vm_compute; discriminate).
  assert (Huh : ulp_half * B64.pow2 1023 <= (1 # 4) * B64.pow2 1023).
  { apply Qmult_le_compat_r; [vm_compute; discriminate | lra]. }
  lra.
Qed.


Lemma round_within (x c : Q) :
  - c <= x -> x <= c -> c <= two_1023 ->
  exists r, B64.round x = B64.Fin r
            /\ r - x <= ulp_half * c + eta
            /\ x - r <= ulp_half * c + eta.
Proof.
  intros H1 H2 Hc.
  assert (Ha : Qabs x <= c) by (apply Qabs_Qle_condition; split; assumption).
  destruct (round_finite x) as [r Hr].
  { eapply Qle_trans; [exact Ha|]. eapply Qle_trans; [exact Hc|].
    vm_compute. discriminate. }
  exists r. split; [exact Hr|].
  apply round_error in Hr.
  assert (Hu : ulp_half * Qabs x <= ulp_half * c).
  { rewrite !(Qmult_comm ulp_half). apply Qmult_le_compat_r; [exact Ha|].
    vm_compute. discriminate. }
  assert (Hr' : Qabs (r - x) <= ulp_half * c + eta) by lra.
  apply Qabs_Qle_condition in Hr'. split; lra.
Qed.


Lemma Qabs_le_split (x c : Q) : Qabs x <= c -> - c <= x /\ x <= c.
Proof. intros H. now apply Qabs_Qle_condition. Qed.

(** Rounding a quotient: the error, multiplied back by the divisor. *)
Lemma round_div (d s cd : Q) :
  0 < s -> two_m500 <= s ->
  - cd <= d -> d <= cd -> cd <= 5 * two_500 ->
  exists q, B64.round (d / s) = B64.Fin q
            /\ q * s - d <= ulp_half * cd + eta * s
            /\ d - q * s <= ulp_half * cd + eta * s
            /\ - two_1004 <= q /\ q <= two_1004.
Proof.
  intros Hs Hsm Hd1 Hd2 Hcd.
  assert (Hcd0 : 0 <= cd) by lra.
  assert (Had : Qabs d <= cd) by (apply Qabs_Qle_condition; split; assumption).
  assert (Hinv : / s <= two_500).
  { apply Qle_trans with (/ two_m500).
    - apply Qinv_le_antitone; [vm_compute; reflexivity | exact Hsm].
    - vm_compute. discriminate. }
  assert (Hinv0 : 0 < / s) by now apply Qinv_lt_0_compat.
  assert (Habs : Qabs (d / s) == Qabs d * / s).
  { unfold Qdiv. rewrite Qabs_Qmult, (Qabs_pos (/ s)) by lra. reflexivity. }
  assert (Hq : Qabs (d / s) <= 5 * two_500 * two_500).
  { rewrite Habs.
    apply Qle_trans with (cd * / s).
    - apply Qmult_le_compat_r; lra.
    - apply Qle_trans with (cd * two_500).
      + rewrite !(Qmult_comm cd). apply Qmult_le_compat_r; lra.
      + apply Qmult_le_compat_r; [lra | vm_compute; discriminate]. }
  destruct (round_finite (d / s)) as [q Rq].
  { eapply Qle_trans; [exact Hq|]. vm_compute. discriminate. }
  exists q. split; [exact Rq|].
  pose proof (round_error _ _ Rq) as He.
  assert (Hes : Qabs (q * s - d) <= ulp_half * cd + eta * s).
  { assert (Heq : q * s - d == (q - d / s) * s) by (field; lra).
    rewrite Heq, Qabs_Qmult, (Qabs_pos s) by lra.
    apply Qle_trans with ((ulp_half * Qabs (d / s) + eta) * s).
    - apply Qmult_le_compat_r; lra.
    - rewrite Habs.
      assert (Hx : (ulp_half * (Qabs d * / s) + eta) * s == ulp_half * Qabs d + eta * s)
        by (field; lra).
      rewrite Hx.
      assert (ulp_half * Qabs d <= ulp_half * cd).
      { rewrite !(Qmult_comm ulp_half). apply Qmult_le_compat_r; [exact Had|].
        vm_compute. discriminate. }
      lra. }
  apply Qabs_le_split in Hes.
  split; [lra|]. split; [lra|].
  apply Qabs_Qle_condition.
  pose proof (Qabs_triangle (q - d / s) (d / s)) as Ht.
  assert (Hqq : q - d / s + d / s == q) by ring. rewrite Hqq in Ht.
  assert (Hu : ulp_half * Qabs (d / s) <= Qabs (d / s)).
  { rewrite <- (Qmult_1_l (Qabs (d / s))) at 2.
    apply Qmult_le_compat_r; [vm_compute; discriminate | apply Qabs_nonneg]. }
  assert (Heta : eta <= 1) by (vm_compute; discriminate).
  assert (Hc : 2 * (5 * two_500 * two_500) + 1 <= two_1004) by (vm_compute; discriminate).
  lra.
Qed.

(** Converting the floored quotient and scaling by the step. *)
Lemma round_int (k : Z) (s : Q) :
  0 < s -> - two_1004 - 1 <= inject_Z k -> inject_Z k <= two_1004 ->
  exists kf, B64.float_of_int k = Ok (B64.Fin kf)
             /\ Qabs (kf * s - inject_Z k * s) <= ulp_half * Qabs (inject_Z k * s) + eta * s.
Proof.
  intros Hs Hk1 Hk2. unfold B64.float_of_int.
  destruct (round_finite (inject_Z k)) as [kf Rk].
  { apply Qabs_Qle_condition.
    assert (two_1004 + 1 <= B64.pow2 1023) by (vm_compute; discriminate).
    split; lra. }
  rewrite Rk. exists kf. split; [reflexivity|].
  pose proof (round_error _ _ Rk) as He.
  assert (Heq : kf * s - inject_Z k * s == (kf - inject_Z k) * s) by ring.
  rewrite Heq, !Qabs_Qmult, (Qabs_pos s) by lra.
  apply Qle_trans with ((ulp_half * Qabs (inject_Z k) + eta) * s).
  - apply Qmult_le_compat_r; lra.
  - assert (Hx : (ulp_half * Qabs (inject_Z k) + eta) * s
                 == ulp_half * (Qabs (inject_Z k) * s) + eta * s) by ring.
    rewrite Hx. apply Qle_refl.
Qed.

Lemma float_of_int_returns (n : Z) :
  Qabs (inject_Z n) <= B64.pow2 1023 -> exists r, B64.float_of_int n = Ok (B64.Fin r).
Proof.
  intros Hn. unfold B64.float_of_int.
  destruct (round_finite _ Hn) as [r ->]. now exists r.
Qed.









(** The quantizing branch on finite arguments of magnitude at most [M]. *)
Lemma quantized_bottom_snap_bounds (cfg : B64.Config) (z D s A E M : Q) :
  B64.QUANTIZE_FILL cfg = true ->
  B64.MIN_MODEL_BASE_DEPTH cfg = B64.Fin D ->
  B64.FILL_LAYER_THICKNESS cfg = B64.Fin s ->
  B64.QUANTIZE_ANCHOR_Z cfg = B64.Fin A ->
  B64.EPS cfg = B64.Fin E ->
  0 < s ->
  Qabs z <= M -> Qabs D <= M -> Qabs A <= M -> s <= M -> Qabs E <= M ->
  M <= two_500 -> two_m500 <= s ->
  exists b,
    B64.quantized_bottom cfg (B64.Fin z) = Ok (B64.Fin b)
    /\ z - D - s - E - two_m48 * M < b
    /\ b <= z - D - E + two_m48 * M.
Proof.
  intros Hq HcD Hcs HcA HcE Hs Hz HD HA HsM HE HM Hsm.
  apply Qabs_le_split in Hz. destruct Hz as [Hz1 Hz2].
  apply Qabs_le_split in HD. destruct HD as [HD1 HD2].
  apply Qabs_le_split in HA. destruct HA as [HA1 HA2].
  apply Qabs_le_split in HE. destruct HE as [HE1 HE2].
  unfold B64.quantized_bottom. rewrite Hq, HcD, Hcs, HcA, HcE.
  cbn [negb]. cbv zeta.
  unfold B64.int_mul, B64.fsub, B64.fneg, B64.fadd.
  (* pre_base *)
  destruct (round_within (z + - D) (2 * M)) as (pre & Rpre & Hp1 & Hp2);
    [lra | lra | unfold two_500 in HM; unfold two_1023; lra |].
  rewrite Rpre.
  (* pre_base - anchor *)
  destruct (round_within (pre + - A) ((31 # 10) * M)) as (d & Rd & Hd1 & Hd2);
    [unfold ulp_half, eta, two_500, two_m500 in *; lra
    |unfold ulp_half, eta, two_500, two_m500 in *; lra
    |unfold two_500 in HM; unfold two_1023; lra |].
  rewrite Rd.
  (* the quotient *)
  unfold B64.truediv, B64.is_zero.
  assert (Hsz : Qeq_bool s 0 = false).
  { destruct (Qeq_bool s 0) eqn:Ez; [|reflexivity]. apply Qeq_bool_iff in Ez. lra. }
  rewrite Hsz. cbn [bind].
  destruct (round_div d s ((32 # 10) * M)) as (q & Rq & Hq1 & Hq2 & Hq3 & Hq4);
    [lra | lra
    |unfold ulp_half, eta, two_500, two_m500 in *; lra
    |unfold ulp_half, eta, two_500, two_m500 in *; lra
    |unfold two_500 in *; lra |].
  rewrite Rq. cbn [B64.floor bind].
  (* the layer index *)
  pose proof (Qfloor_le q) as Hk1. pose proof (Qlt_floor q) as Hk2.
  rewrite inject_Z_plus in Hk2. change (inject_Z 1) with 1 in Hk2.
  set (k := inject_Z (Qfloor q)) in *.
  destruct (round_int (Qfloor q) s Hs) as (kf & Rk & Hkf); [fold k; lra | fold k; lra |].
  fold k in Hkf. rewrite Rk. cbn [bind B64.fmul].
  assert (HKS1 : k * s <= q * s) by (apply Qmult_le_compat_r; lra).
  assert (HKS2 : q * s < (k + 1) * s) by (apply Qmult_lt_compat_r; lra).
  assert (HKS3 : (k + 1) * s == k * s + s) by ring.
  rewrite HKS3 in HKS2. clear HKS3.
  set (KS := k * s) in *. set (QS := q * s) in *.
  assert (HaKS : Qabs KS <= (43 # 10) * M).
  { apply Qabs_Qle_condition. unfold ulp_half, eta, two_500, two_m500 in *. split; lra. }
  assert (HuKS : ulp_half * Qabs KS <= ulp_half * ((43 # 10) * M)).
  { rewrite !(Qmult_comm ulp_half). apply Qmult_le_compat_r; [exact HaKS|].
    vm_compute. discriminate. }
  assert (Hkf' : Qabs (kf * s - KS) <= ulp_half * ((43 # 10) * M) + eta * s) by lra.
  apply Qabs_le_split in Hkf'. destruct Hkf' as [Hkf1 Hkf2].
  apply Qabs_le_split in HaKS. destruct HaKS as [HKSa HKSb].
  clear Hkf HuKS.
  set (KF := kf * s) in *.
  (* the product, the sum with the anchor, the subtraction of EPS *)
  destruct (round_within KF ((44 # 10) * M)) as (p & Rp & Hpa & Hpb);
    [unfold ulp_half, eta, two_500, two_m500 in *; lra
    |unfold ulp_half, eta, two_500, two_m500 in *; lra
    |unfold two_500 in HM; unfold two_1023; lra |].
  rewrite Rp.
  destruct (round_within (A + p) ((55 # 10) * M)) as (sn & Rsn & Hsa & Hsb);
    [unfold ulp_half, eta, two_500, two_m500 in *; lra
    |unfold ulp_half, eta, two_500, two_m500 in *; lra
    |unfold two_500 in HM; unfold two_1023; lra |].
  rewrite Rsn.
  destruct (round_within (sn + - E) ((66 # 10) * M)) as (b & Rb & Hba & Hbb);
    [unfold ulp_half, eta, two_500, two_m500 in *; lra
    |unfold ulp_half, eta, two_500, two_m500 in *; lra
    |unfold two_500 in HM; unfold two_1023; lra |].
  rewrite Rb. exists b. split; [reflexivity|].
  unfold ulp_half, eta, two_500, two_m500, two_m48 in *. split; lra.
Qed.

(** The plain branch on finite arguments of magnitude at most [M]. *)
Lemma quantized_bottom_plain_bounds (cfg : B64.Config) (z D s M : Q) :
  B64.QUANTIZE_FILL cfg = false ->
  B64.MIN_MODEL_BASE_DEPTH cfg = B64.Fin D ->
  B64.FILL_LAYER_THICKNESS cfg = B64.Fin s ->
  Qabs z <= M -> Qabs D <= M -> Qabs s <= M ->
  two_m500 <= M -> M <= two_500 ->
  exists b,
    B64.quantized_bottom cfg (B64.Fin z) = Ok (B64.Fin b)
    /\ z - D - s - two_m48 * M <= b
    /\ b <= z - D - s + two_m48 * M.
Proof.
  intros Hq HcD Hcs Hz HD Hs Hm HM.
  apply Qabs_le_split in Hz. destruct Hz as [Hz1 Hz2].
  apply Qabs_le_split in HD. destruct HD as [HD1 HD2].
  apply Qabs_le_split in Hs. destruct Hs as [Hs1 Hs2].
  unfold B64.quantized_bottom. rewrite Hq, HcD, Hcs.
  cbn [negb]. unfold B64.fsub, B64.fneg, B64.fadd.
  destruct (round_within (z + - D) (2 * M)) as (pre & Rpre & Hp1 & Hp2);
    [lra | lra | unfold two_500 in HM; unfold two_1023; lra |].
  rewrite Rpre.
  destruct (round_within (pre + - s) ((41 # 10) * M)) as (b & Rb & Hb1 & Hb2);
    [unfold ulp_half, eta, two_500, two_m500 in *; lra
    |unfold ulp_half, eta, two_500, two_m500 in *; lra
    |unfold two_500 in HM; unfold two_1023; lra |].
  rewrite Rb. exists b. split; [reflexivity|].
  unfold ulp_half, eta, two_500, two_m500, two_m48 in *. split; lra.
Qed.

(** ** Base quantizer *)

Lemma quantized_bottom_zero_divisor (cfg : B64.Config) (min_z : B64.float) :
  B64.QUANTIZE_FILL cfg = true ->
  B64.is_zero (B64.FILL_LAYER_THICKNESS cfg) = true ->
  B64.quantized_bottom cfg min_z = Raise ZeroDivisionError.
Proof.
  intros Hq Hz. unfold B64.quantized_bottom, B64.truediv.
  rewrite Hq, Hz. reflexivity.
Qed.

(** C1.  [quantized_bottom] computes the two formulas in binary64, every
    operation rounded.  With [QUANTIZE_FILL] off it returns
    [(min_z - BASE_DEPTH) - STEP].  In quantizing mode a zero step raises
    [ZeroDivisionError]; otherwise, with [q] the rounded quotient
    [((min_z - BASE_DEPTH) - ANCHOR) / STEP], an infinite [q] raises
    [OverflowError], a NaN raises [ValueError], and a finite [q] gives
    [(ANCHOR + floor(q) * STEP) - EPS], the conversion of [floor(q)] to a
    float raising nothing when [|floor(q)| <= 2^1023].  On finite settings
    of magnitude at most [M] the value returned is less than one step plus
    [2^-48 * M] away from the formula evaluated in exact arithmetic.  With
    step 0.02, base depth 0.005, anchor 0 and [min_z = 0.137] the result
    is [0.12 - EPS]. *)
Theorem quantized_bottom_formula (cfg : B64.Config) (min_z : B64.float) :
  (B64.QUANTIZE_FILL cfg = false ->
   B64.quantized_bottom cfg min_z =
   Ok (B64.fsub (B64.fsub min_z (B64.MIN_MODEL_BASE_DEPTH cfg))
                (B64.FILL_LAYER_THICKNESS cfg)))
  /\ (B64.QUANTIZE_FILL cfg = true ->
      B64.is_zero (B64.FILL_LAYER_THICKNESS cfg) = true ->
      B64.quantized_bottom cfg min_z = Raise ZeroDivisionError)
  /\ (B64.QUANTIZE_FILL cfg = true ->
      forall q,
        B64.truediv (B64.fsub (B64.fsub min_z (B64.MIN_MODEL_BASE_DEPTH cfg))
                              (B64.QUANTIZE_ANCHOR_Z cfg))
                    (B64.FILL_LAYER_THICKNESS cfg) = Ok q ->
        match q with
        | B64.Fin x =>
            B64.quantized_bottom cfg min_z =
            (kf <- B64.float_of_int (Qfloor x) ;;
             Ok (B64.fsub (B64.fadd (B64.QUANTIZE_ANCHOR_Z cfg)
                                    (B64.fmul kf (B64.FILL_LAYER_THICKNESS cfg)))
                          (B64.EPS cfg)))
            /\ (Qabs (inject_Z (Qfloor x)) <= B64.pow2 1023 ->
                exists kf, B64.float_of_int (Qfloor x) = Ok (B64.Fin kf))
        | B64.Inf _ => B64.quantized_bottom cfg min_z = Raise OverflowError
        | B64.NaN => B64.quantized_bottom cfg min_z = Raise ValueError
        end)
  /\ (B64.QUANTIZE_FILL cfg = true ->
      forall z D s A E M,
        min_z = B64.Fin z ->
        B64.MIN_MODEL_BASE_DEPTH cfg = B64.Fin D ->
        B64.FILL_LAYER_THICKNESS cfg = B64.Fin s ->
        B64.QUANTIZE_ANCHOR_Z cfg = B64.Fin A ->
        B64.EPS cfg = B64.Fin E ->
        0 < s ->
        Qabs z <= M -> Qabs D <= M -> Qabs A <= M -> s <= M -> Qabs E <= M ->
        M <= two_500 -> two_m500 <= s ->
        exists b,
          B64.quantized_bottom cfg min_z = Ok (B64.Fin b)
          /\ Qabs (b - (A + inject_Z (Qfloor ((z - D - A) / s)) * s - E))
             < s + two_m48 * M)
  /\ (B64.QUANTIZE_FILL cfg = true ->
      B64.FILL_LAYER_THICKNESS cfg = B64.lit 0.02 ->
      B64.MIN_MODEL_BASE_DEPTH cfg = B64.lit 0.005 ->
      B64.QUANTIZE_ANCHOR_Z cfg = B64.lit 0 ->
      min_z = B64.lit 0.137 ->
      B64.quantized_bottom cfg min_z = Ok (B64.fsub (B64.lit 0.12) (B64.EPS cfg))).
Proof.
  split; [|split; [|split; [|split]]].
  - intros Hq. unfold B64.quantized_bottom. now rewrite Hq.
  - apply quantized_bottom_zero_divisor.
  - intros Hq q Hdiv. unfold B64.quantized_bottom. rewrite Hq. cbn [negb]. cbv zeta.
    rewrite Hdiv. cbn [bind].
    destruct q as [x|sg|]; cbn [B64.floor bind]; [|reflexivity|reflexivity].
    split.
    + unfold B64.int_mul.
      destruct (B64.float_of_int (Qfloor x)); reflexivity.
    + apply float_of_int_returns.
  - intros Hq z D s A E M -> HcD Hcs HcA HcE Hs Hz HD HA HsM HE HM Hsm.
    destruct (quantized_bottom_snap_bounds cfg z D s A E M
                Hq HcD Hcs HcA HcE Hs Hz HD HA HsM HE HM Hsm) as (b & Hb & Hlo & Hhi).
    exists b. split; [exact Hb|].
    destruct (floor_step_bounds (z - D - A) s Hs) as [Hle Hlt].
    assert (H0 : 0 <= two_m48 * M).
    { apply Qmult_le_0_compat; [vm_compute; discriminate|].
      pose proof (Qabs_nonneg z). lra. }
    apply Qabs_Qlt_condition. split; lra.
  - intros Hq Hcs HcD HcA ->.
    unfold B64.quantized_bottom. rewrite Hq, Hcs, HcD, HcA. cbn [negb]. cbv zeta.
    assert (Hdiv : B64.truediv (B64.fsub (B64.fsub (B64.lit 0.137) (B64.lit 0.005))
                                         (B64.lit 0))
                               (B64.lit 0.02)
                   = Ok (B64.Fin (7430939385161319 # 1125899906842624)))
      by (vm_compute; reflexivity).
    rewrite Hdiv. cbn [bind B64.floor].
    assert (Hmul : B64.int_mul (Qfloor (7430939385161319 # 1125899906842624))
                               (B64.lit 0.02)
                   = Ok (B64.fmul (B64.Fin 6) (B64.lit 0.02)))
      by (vm_compute; reflexivity).
    rewrite Hmul. cbn [bind].
    assert (Hadd : B64.fadd (B64.lit 0) (B64.fmul (B64.Fin 6) (B64.lit 0.02))
                   = B64.lit 0.12)
      by (vm_compute; reflexivity).
    rewrite Hadd. reflexivity.
Qed.

Lemma quantized_bottom_formula_witness :
  B64.quantized_bottom B64.default_config (B64.lit 0.137)
  = Ok (B64.fsub (B64.lit 0.12) (B64.lit 0.000001)).
Proof.
  apply (quantized_bottom_formula B64.default_config (B64.lit 0.137)); reflexivity.
Defined.

(** C1 fails as worded.  With a zero layer thickness the quantizer raises
    instead of returning; and with the shipped settings and
    [min_z = 0.125] the rounded quotient is 6 where the exact one is just
    below 6, so that the value returned lies a whole layer above the
    formula evaluated in exact arithmetic. *)
Lemma quantized_bottom_formula_fails :
  B64.quantized_bottom (with_step B64.default_config (B64.lit 0)) (B64.lit 0.137)
  = Raise ZeroDivisionError
  /\ exists b c,
       B64.quantized_bottom B64.default_config (B64.lit 0.125) = Ok (B64.Fin b)
       /\ snapped_exactly B64.default_config (B64.lit 0.125) = Some c
       /\ c + 0.019 < b.
Proof.
  split; [vm_compute; reflexivity|].
  eexists. eexists.
  split; [vm_compute; reflexivity|].
  split; [vm_compute; reflexivity|].
  vm_compute. reflexivity.
Qed.

(** C4.  On finite arguments of magnitude at most [M], with a positive
    layer thickness, [quantized_bottom] returns a value that exceeds
    [min_z - MIN_MODEL_BASE_DEPTH] by less than the rounding slack
    [2^-48 * M] minus [EPS] in quantizing mode, minus the layer thickness
    otherwise; so it is at most [min_z - MIN_MODEL_BASE_DEPTH] as soon as
    [EPS], respectively the layer thickness, is at least [2^-48 * M]. *)
Theorem quantized_bottom_keeps_base_depth (cfg : B64.Config) (z D s A E M : Q) :
  B64.MIN_MODEL_BASE_DEPTH cfg = B64.Fin D ->
  B64.FILL_LAYER_THICKNESS cfg = B64.Fin s ->
  B64.QUANTIZE_ANCHOR_Z cfg = B64.Fin A ->
  B64.EPS cfg = B64.Fin E ->
  0 < s ->
  0 <= E ->
  Qabs z <= M -> Qabs D <= M -> Qabs A <= M -> s <= M -> E <= M ->
  M <= two_500 -> two_m500 <= s ->
  exists bottom_z,
    B64.quantized_bottom cfg (B64.Fin z) = Ok (B64.Fin bottom_z)
    /\ bottom_z <= z - D + two_m48 * M - (if B64.QUANTIZE_FILL cfg then E else s)
    /\ (two_m48 * M <= (if B64.QUANTIZE_FILL cfg then E else s) -> bottom_z <= z - D).
Proof.
  intros HcD Hcs HcA HcE Hs HE Hz HD HA HsM HEM HM Hsm.
  destruct (B64.QUANTIZE_FILL cfg) eqn:Hq.
  - destruct (quantized_bottom_snap_bounds cfg z D s A E M) as (b & Hb & _ & Hhi);
      try assumption.
    { apply Qabs_Qle_condition. split; lra. }
    exists b. split; [exact Hb|]. split; [lra | intros Hslack; lra].
  - destruct (quantized_bottom_plain_bounds cfg z D s M) as (b & Hb & _ & Hhi);
      try assumption.
    { apply Qabs_Qle_condition. split; lra. }
    { lra. }
    exists b. split; [exact Hb|]. split; [lra | intros Hslack; lra].
Qed.

Lemma quantized_bottom_keeps_base_depth_witness :
  exists z D bottom_z,
    B64.lit 0.137 = B64.Fin z
    /\ B64.MIN_MODEL_BASE_DEPTH B64.default_config = B64.Fin D
    /\ B64.quantized_bottom B64.default_config (B64.lit 0.137) = Ok (B64.Fin bottom_z)
    /\ bottom_z <= z - D.
Proof.
  assert (Hz : B64.lit 0.137 = B64.Fin ?[z]) by (vm_compute; reflexivity).
  assert (HD : B64.MIN_MODEL_BASE_DEPTH B64.default_config = B64.Fin ?[D])
    by (vm_compute; reflexivity).
  assert (Hs : B64.FILL_LAYER_THICKNESS B64.default_config = B64.Fin ?[s])
    by (vm_compute; reflexivity).
  assert (HA : B64.QUANTIZE_ANCHOR_Z B64.default_config = B64.Fin ?[A])
    by (vm_compute; reflexivity).
  assert (HE : B64.EPS B64.default_config = B64.Fin ?[E])
    by (vm_compute; reflexivity).
  match type of Hz with
  | _ = B64.Fin ?z0 =>
      destruct (quantized_bottom_keeps_base_depth B64.default_config z0 _ _ _ _ 1
                  HD Hs HA HE)
        as (b & Hb & _ & Hle)
  end.
  1-9: vm_compute; first [reflexivity | discriminate].
  eexists. eexists. exists b.
  split; [exact Hz|]. split; [exact HD|].
  split; [rewrite Hz; exact Hb|].
  apply Hle. vm_compute. discriminate.
Defined.

(** C4 fails as worded.  With the shipped settings but [EPS = 0], which
    the claim allows, and [min_z = 0.705], the quantizer returns a value
    above [min_z - MIN_MODEL_BASE_DEPTH]. *)
Lemma base_depth_cut_into :
  exists bottom_z plane,
    B64.quantized_bottom (with_eps B64.default_config (B64.lit 0)) (B64.lit 0.705)
    = Ok (B64.Fin bottom_z)
    /\ base_plane (with_eps B64.default_config (B64.lit 0)) (B64.lit 0.705) = Some plane
    /\ plane < bottom_z.
Proof.
  eexists. eexists.
  split; [vm_compute; reflexivity|].
  split; [vm_compute; reflexivity|].
  vm_compute. reflexivity.
Qed.

(** C9.  In quantizing mode, on finite arguments of magnitude at most [M]
    and with a positive layer thickness, the returned bottom lies less
    than one layer plus [EPS] plus the rounding slack [2^-48 * M] below
    [min_z - MIN_MODEL_BASE_DEPTH]. *)
Theorem quantized_bottom_within_one_layer (cfg : B64.Config) (z D s A E M : Q) :
  B64.QUANTIZE_FILL cfg = true ->
  B64.MIN_MODEL_BASE_DEPTH cfg = B64.Fin D ->
  B64.FILL_LAYER_THICKNESS cfg = B64.Fin s ->
  B64.QUANTIZE_ANCHOR_Z cfg = B64.Fin A ->
  B64.EPS cfg = B64.Fin E ->
  0 < s ->
  Qabs z <= M -> Qabs D <= M -> Qabs A <= M -> s <= M -> Qabs E <= M ->
  M <= two_500 -> two_m500 <= s ->
  exists bottom_z,
    B64.quantized_bottom cfg (B64.Fin z) = Ok (B64.Fin bottom_z)
    /\ z - D - s - E - two_m48 * M < bottom_z.
Proof.
  intros Hq HcD Hcs HcA HcE Hs Hz HD HA HsM HE HM Hsm.
  destruct (quantized_bottom_snap_bounds cfg z D s A E M
              Hq HcD Hcs HcA HcE Hs Hz HD HA HsM HE HM Hsm) as (b & Hb & Hlo & _).
  exists b. split; assumption.
Qed.

Lemma quantized_bottom_within_one_layer_witness :
  exists z D s E bottom_z,
    B64.lit 2.385 = B64.Fin z
    /\ B64.MIN_MODEL_BASE_DEPTH B64.default_config = B64.Fin D
    /\ B64.FILL_LAYER_THICKNESS B64.default_config = B64.Fin s
    /\ B64.EPS B64.default_config = B64.Fin E
    /\ B64.quantized_bottom B64.default_config (B64.lit 2.385) = Ok (B64.Fin bottom_z)
    /\ z - D - s - E - two_m48 * 4 < bottom_z.
Proof.
  assert (Hz : B64.lit 2.385 = B64.Fin ?[z]) by (vm_compute; reflexivity).
  assert (HD : B64.MIN_MODEL_BASE_DEPTH B64.default_config = B64.Fin ?[D])
    by (vm_compute; reflexivity).
  assert (Hs : B64.FILL_LAYER_THICKNESS B64.default_config = B64.Fin ?[s])
    by (vm_compute; reflexivity).
  assert (HA : B64.QUANTIZE_ANCHOR_Z B64.default_config = B64.Fin ?[A])
    by (vm_compute; reflexivity).
  assert (HE : B64.EPS B64.default_config = B64.Fin ?[E])
    by (vm_compute; reflexivity).
  match type of Hz with
  | _ = B64.Fin ?z0 =>
      destruct (quantized_bottom_within_one_layer B64.default_config z0 _ _ _ _ 4
                  eq_refl HD Hs HA HE)
        as (b & Hb & Hlo)
  end.
  1-8: vm_compute; first [reflexivity | discriminate].
  eexists. eexists. eexists. eexists. exists b.
  split; [exact Hz|]. split; [exact HD|]. split; [exact Hs|]. split; [exact HE|].
  split; [rewrite Hz; exact Hb | exact Hlo].
Defined.

(** C9 fails as worded.  With the shipped settings and [min_z = 2.385]
    the rounded quotient is just below 119 where the exact one is above
    it, and the value returned is not above
    [min_z - MIN_MODEL_BASE_DEPTH - FILL_LAYER_THICKNESS - EPS]. *)
Lemma more_than_one_layer_below :
  exists bottom_z bound,
    B64.quantized_bottom B64.default_config (B64.lit 2.385) = Ok (B64.Fin bottom_z)
    /\ one_layer_below B64.default_config (B64.lit 2.385) = Some bound
    /\ bottom_z <= bound.
Proof.
  eexists. eexists.
  split; [vm_compute; reflexivity|].
  split; [vm_compute; reflexivity|].
  vm_compute. discriminate.
Qed.

(** ** Fixture placer *)

Lemma py_max_Qmax (a b : Q) : py_max a b == Qmax a b.
Proof.
  unfold py_max. destruct (Qlt_bool a b) eqn:E.
  - apply Qlt_bool_iff in E. symmetry. apply Q.max_r. lra.
  - apply Qlt_bool_false_iff in E. symmetry. apply Q.max_l. exact E.
Qed.

Lemma py_max_lub_r (a b : Q) : b <= py_max a b.
Proof.
  unfold py_max. destruct (Qlt_bool a b) eqn:E.
  - lra.
  - apply Qlt_bool_false_iff in E. exact E.
Qed.

Lemma bores_add_corner_magnets (cfg : Config) (cube : TileObj) (row col : Z)
    (x y z cube_height : Q) :
  let d := TILE_SIZE cfg / 2 - offset_m cfg in
  let cz := z - cube_height / 2 + MAGNET_HEIGHT cfg / 2 - extra / 2 in
  let bore cx cy :=
    (MAGNET_RADIUS cfg, MAGNET_HEIGHT cfg + extra, {| vx := cx; vy := cy; vz := cz |}) in
  bores (add_corner_magnets cfg cube row col x y z cube_height) =
  (bores cube ++ [bore (x - d) (y - d); bore (x + d) (y - d);
                  bore (x - d) (y + d); bore (x + d) (y + d)])%list.
Proof.
  unfold add_corner_magnets, bores.
  cbn [enumerate enumerate_from fold_left corner_step].
  unfold add_boolean. cbn [with_modifiers o_modifiers].
  repeat rewrite <- app_assoc. cbn [app].
  rewrite flat_map_app. reflexivity.
Qed.

(** ** Height profiler *)

Lemma in_bounds_iff (cfg : Config) (row col : Z) (v : Vec3) :
  in_bounds (tile_aabb cfg row col) v = true <->
  (inject_Z col * TILE_SIZE cfg <= vx v /\ vx v <= inject_Z (col + 1) * TILE_SIZE cfg)
  /\ (inject_Z row * TILE_SIZE cfg <= vy v /\ vy v <= inject_Z (row + 1) * TILE_SIZE cfg).
Proof.
  unfold in_bounds, tile_aabb.
  rewrite !andb_true_iff, !Qle_bool_iff. reflexivity.
Qed.

Lemma py_min_In (zs : list Q) (z0 : Q) : In (py_min z0 zs) (z0 :: zs).
Proof.
  unfold py_min. revert z0.
  induction zs as [|z zs IH]; intros z0; simpl.
  - now left.
  - destruct (IH (if Qlt_bool z z0 then z else z0)) as [H|H].
    + destruct (Qlt_bool z z0); rewrite <- H; auto.
    + auto.
Qed.

Lemma py_min_le_head (zs : list Q) (z0 : Q) : py_min z0 zs <= z0.
Proof.
  unfold py_min. revert z0.
  induction zs as [|z1 zs IH]; intros z0; simpl.
  - apply Qle_refl.
  - destruct (Qlt_bool z1 z0) eqn:E.
    + apply Qlt_bool_iff in E. specialize (IH z1). lra.
    + apply IH.
Qed.

Lemma py_min_le (zs : list Q) (z0 z : Q) : In z (z0 :: zs) -> py_min z0 zs <= z.
Proof.
  revert z0.
  induction zs as [|z1 zs IH]; intros z0 Hin.
  - destruct Hin as [<-|[]]. apply Qle_refl.
  - change (py_min z0 (z1 :: zs))
      with (py_min (if Qlt_bool z1 z0 then z1 else z0) zs).
    destruct (Qlt_bool z1 z0) eqn:E.
    + apply Qlt_bool_iff in E.
      destruct Hin as [<-|[<-|Hin]].
      * pose proof (py_min_le_head zs z1). lra.
      * apply py_min_le_head.
      * apply IH. now right.
    + apply Qlt_bool_false_iff in E.
      destruct Hin as [<-|[<-|Hin]].
      * apply py_min_le_head.
      * pose proof (py_min_le_head zs z0). lra.
      * apply IH. now right.
Qed.

Lemma min_z_in_tile_None (cfg : Config) (city_obj : CityObj) (row col : Z) :
  min_z_in_tile cfg city_obj row col = None <-> verts_in_tile cfg city_obj row col = [].
Proof.
  unfold min_z_in_tile. fold (verts_in_tile cfg city_obj row col).
  destruct (verts_in_tile cfg city_obj row col); simpl; split; intros; congruence.
Qed.

Lemma min_z_in_tile_Some (cfg : Config) (city_obj : CityObj) (row col : Z) (z : Q) :
  min_z_in_tile cfg city_obj row col = Some z ->
  (exists v, In v (verts_in_tile cfg city_obj row col) /\ vz v = z)
  /\ (forall v, In v (verts_in_tile cfg city_obj row col) -> z <= vz v).
Proof.
  unfold min_z_in_tile. fold (verts_in_tile cfg city_obj row col).
  destruct (verts_in_tile cfg city_obj row col) as [|v0 vs] eqn:E; simpl; [discriminate|].
  intros [= <-]. split.
  - pose proof (py_min_In (map vz vs) (vz v0)) as Hin.
    change (vz v0 :: map vz vs) with (map vz (v0 :: vs)) in Hin.
    apply in_map_iff in Hin. destruct Hin as [v [Hv Hin]]. now exists v.
  - intros v Hin. apply py_min_le.
    change (vz v0 :: map vz vs) with (map vz (v0 :: vs)). now apply in_map.
Qed.

Lemma verts_in_tile_perm (cfg : Config) (c1 c2 : CityObj) (row col : Z) (v : Vec3) :
  matrix_world c1 = matrix_world c2 ->
  Permutation (vertices c1) (vertices c2) ->
  In v (verts_in_tile cfg c1 row col) -> In v (verts_in_tile cfg c2 row col).
Proof.
  intros Hm Hp. unfold verts_in_tile, verts_world. rewrite !filter_In, Hm.
  intros [Hin Hb]. split; [|exact Hb].
  eapply Permutation_in; [|exact Hin]. now apply Permutation_map.
Qed.

Lemma min_z_in_tile_perm (cfg : Config) (c1 c2 : CityObj) (row col : Z) :
  matrix_world c1 = matrix_world c2 ->
  Permutation (vertices c1) (vertices c2) ->
  option_Qeq (min_z_in_tile cfg c1 row col) (min_z_in_tile cfg c2 row col).
Proof.
  intros Hm Hp.
  assert (H12 := fun v => verts_in_tile_perm cfg c1 c2 row col v Hm Hp).
  assert (H21 := fun v => verts_in_tile_perm cfg c2 c1 row col v
                            (eq_sym Hm) (Permutation_sym Hp)).
  destruct (min_z_in_tile cfg c1 row col) as [z1|] eqn:E1;
    destruct (min_z_in_tile cfg c2 row col) as [z2|] eqn:E2; simpl; trivial.
  - apply min_z_in_tile_Some in E1. destruct E1 as [[v1 [Hv1 <-]] Hmin1].
    apply min_z_in_tile_Some in E2. destruct E2 as [[v2 [Hv2 <-]] Hmin2].
    apply Qle_antisym; auto.
  - apply min_z_in_tile_Some in E1. destruct E1 as [[v1 [Hv1 _]] _].
    apply min_z_in_tile_None in E2. apply H12 in Hv1. rewrite E2 in Hv1. destruct Hv1.
  - apply min_z_in_tile_Some in E2. destruct E2 as [[v2 [Hv2 _]] _].
    apply min_z_in_tile_None in E1. apply H21 in Hv2. rewrite E1 in Hv2. destruct Hv2.
Qed.

Lemma process_tile_unpopulated (cfg : Config) (city_obj : CityObj) (row col : Z)
    (tiles : list TileObj) :
  min_z_in_tile cfg city_obj row col = None ->
  process_tile cfg city_obj row col tiles = Ok tiles.
Proof.
  intros H. unfold process_tile. now rewrite H.
Qed.

Lemma mkdir_usable (w : World) :
  output_dir_usable w -> mkdir w = Ok (with_output_dir w).
Proof.
  unfold mkdir, with_output_dir. intros [H|H]; now rewrite H.
Qed.

Lemma mkdir_blocked (w : World) :
  ~ output_dir_usable w ->
  mkdir w = Raise FileExistsError \/ mkdir w = Raise PermissionError.
Proof.
  unfold mkdir, output_dir_usable. intros Hn.
  destruct (output_dir w); auto; exfalso; apply Hn; auto.
Qed.

Lemma main_blocked (cfg : Config) (h : Host) (w : World) :
  ~ output_dir_usable w -> exists e, main cfg h w = Raise e.
Proof.
  intros Hn. unfold main, ensure_dirs.
  destruct (mkdir_blocked w Hn) as [-> | ->]; eexists; reflexivity.
Qed.

Lemma output_dir_usable_dec (w : World) :
  {output_dir_usable w} + {~ output_dir_usable w}.
Proof.
  unfold output_dir_usable.
  destruct (output_dir w); [left; auto | left; auto | right | right];
    intros [H|H]; discriminate.
Qed.

Lemma main_missing_mesh (cfg : Config) (h : Host) (w : World) :
  city_mesh_file w = None ->
  output_dir_usable w ->
  main cfg h w = Raise FileNotFoundError.
Proof.
  intros H Hu. unfold main, ensure_dirs.
  rewrite (mkdir_usable w Hu). unfold with_output_dir. cbn. now rewrite H.
Qed.

Lemma main_unfold (cfg : Config) (h : Host) (w : World) (obj : CityObj) :
  city_mesh_file w = Some obj ->
  output_dir_usable w ->
  main cfg h w =
  (tiles <- (if SINGLE_TILE_MODE cfg
             then process_tile cfg (city_of_run h obj)
                    (SINGLE_TILE_ROW cfg) (SINGLE_TILE_COL cfg) []
             else process_tiles cfg (city_of_run h obj) (grid_indices cfg) []) ;;
   w' <- export_loop cfg h (with_output_dir w) tiles ;;
   Ok (print w' (created_line cfg))).
Proof.
  intros H Hu. unfold main, ensure_dirs, import_city_mesh.
  rewrite (mkdir_usable w Hu).
  unfold with_output_dir, output_dir_exists. cbn. rewrite H. reflexivity.
Qed.

(** C8.  [min_z_in_tile] returns the least Z among exactly the world
    vertices whose x and y lie in the footprint, bounds included, whatever
    the order of the vertices; it returns [None] exactly when there is no
    such vertex, and then [process_tile] returns without adding a tile and
    without an exception, the loop goes on with the next index, and
    (single-tile mode) [main], once the output directory is made, writes
    no file and prints the closing line. *)
Theorem height_profile_and_skip (cfg : Config) (city_obj : CityObj) (row col : Z) :
  (forall v,
      In v (verts_in_tile cfg city_obj row col) <->
      In v (verts_world city_obj)
      /\ (inject_Z col * TILE_SIZE cfg <= vx v /\ vx v <= inject_Z (col + 1) * TILE_SIZE cfg)
      /\ (inject_Z row * TILE_SIZE cfg <= vy v /\ vy v <= inject_Z (row + 1) * TILE_SIZE cfg))
  /\ (forall z,
        min_z_in_tile cfg city_obj row col = Some z ->
        (exists v, In v (verts_in_tile cfg city_obj row col) /\ vz v = z)
        /\ (forall v, In v (verts_in_tile cfg city_obj row col) -> z <= vz v))
  /\ (forall city',
        matrix_world city_obj = matrix_world city' ->
        Permutation (vertices city_obj) (vertices city') ->
        option_Qeq (min_z_in_tile cfg city_obj row col) (min_z_in_tile cfg city' row col))
  /\ (min_z_in_tile cfg city_obj row col = None <-> verts_in_tile cfg city_obj row col = [])
  /\ (verts_in_tile cfg city_obj row col = [] ->
      forall tiles, process_tile cfg city_obj row col tiles = Ok tiles)
  /\ (verts_in_tile cfg city_obj row col = [] ->
      forall idx tiles,
        process_tiles cfg city_obj ((row, col) :: idx) tiles =
        process_tiles cfg city_obj idx tiles)
  /\ (verts_in_tile cfg city_obj row col = [] ->
      forall h w obj,
        city_mesh_file w = Some obj ->
        city_obj = city_of_run h obj ->
        SINGLE_TILE_MODE cfg = true ->
        SINGLE_TILE_ROW cfg = row ->
        SINGLE_TILE_COL cfg = col ->
        main cfg h w = (w1 <- mkdir w ;; Ok (print w1 (created_line cfg)))).
Proof.
  split.
  { intros v. unfold verts_in_tile. rewrite filter_In, in_bounds_iff. tauto. }
  split; [apply min_z_in_tile_Some|].
  split; [intros city'; apply min_z_in_tile_perm|].
  split; [apply min_z_in_tile_None|].
  split.
  { intros He tiles. apply process_tile_unpopulated. now apply min_z_in_tile_None. }
  split.
  { intros He idx tiles. simpl.
    rewrite process_tile_unpopulated by now apply min_z_in_tile_None.
    reflexivity. }
  intros He h w obj Hw Hc Hs Hr Hcol.
  destruct (output_dir w) eqn:Ed;
    try (unfold main, ensure_dirs, mkdir; rewrite Ed; reflexivity).
  - rewrite (main_unfold _ _ _ _ Hw (or_introl Ed)), Hs, Hr, Hcol, <- Hc.
    rewrite process_tile_unpopulated by now apply min_z_in_tile_None.
    rewrite (mkdir_usable w (or_introl Ed)). reflexivity.
  - rewrite (main_unfold _ _ _ _ Hw (or_intror Ed)), Hs, Hr, Hcol, <- Hc.
    rewrite process_tile_unpopulated by now apply min_z_in_tile_None.
    rewrite (mkdir_usable w (or_intror Ed)). reflexivity.
Qed.

Lemma height_profile_and_skip_witness :
  verts_in_tile default_config sample_city 0 1 = []
  /\ process_tile default_config sample_city 0 1 [] = Ok []
  /\ (exists z,
        min_z_in_tile default_config sample_city 1 2 = Some z
        /\ z == 0.137
        /\ forall v, In v (verts_in_tile default_config sample_city 1 2) -> z <= vz v).
Proof.
  split; [reflexivity|]. split.
  - apply (height_profile_and_skip default_config sample_city 0 1). reflexivity.
  - eexists. split; [reflexivity|]. split; [reflexivity|].
    apply (proj1 (proj2 (height_profile_and_skip default_config sample_city 1 2))).
    reflexivity.
Defined.

(** ** The tile [process_tile] builds *)

Lemma process_tile_populated (cfg : Config) (city_obj : CityObj) (row col : Z)
    (tiles : list TileObj) (min_z cube_bottom : Q) :
  min_z_in_tile cfg city_obj row col = Some min_z ->
  quantized_bottom cfg min_z = Ok cube_bottom ->
  ~ TILE_SIZE cfg == 0 ->
  process_tile cfg city_obj row col tiles =
  Ok (tiles ++ [tile_of cfg city_obj row col min_z cube_bottom])%list.
Proof.
  intros Hm Hb Hs. unfold process_tile. rewrite Hm, Hb. cbn [bind].
  rewrite py_truediv_ok by assumption. reflexivity.
Qed.

Lemma tile_of_mesh (cfg : Config) (city_obj : CityObj) (row col : Z) (min_z b : Q) :
  o_mesh (tile_of cfg city_obj row col min_z b) = CubeMesh (TILE_SIZE cfg).
Proof. reflexivity. Qed.


Lemma tile_of_bores (cfg : Config) (city_obj : CityObj) (row col : Z) (min_z b : Q) :
  let x := inject_Z col * TILE_SIZE cfg + TILE_SIZE cfg / 2 in
  let y := inject_Z row * TILE_SIZE cfg + TILE_SIZE cfg / 2 in
  let d := TILE_SIZE cfg / 2 - offset_m cfg in
  let h := min_z + TILE_SIZE cfg / 2 - b in
  let cz := b + h / 2 - h / 2 + MAGNET_HEIGHT cfg / 2 - extra / 2 in
  let bore cx cy :=
    (MAGNET_RADIUS cfg, MAGNET_HEIGHT cfg + extra, {| vx := cx; vy := cy; vz := cz |}) in
  bores (tile_of cfg city_obj row col min_z b) =
  [bore (x - d) (y - d); bore (x + d) (y - d); bore (x - d) (y + d); bore (x + d) (y + d)].
Proof.
  unfold tile_of. cbv zeta. rewrite bores_add_corner_magnets. reflexivity.
Qed.

Lemma tile_of_spans (cfg : Config) (city_obj : CityObj) (row col : Z) (min_z b : Q) :
  ~ TILE_SIZE cfg == 0 ->
  let t := tile_of cfg city_obj row col min_z b in
  x_low t == inject_Z col * TILE_SIZE cfg
  /\ x_high t == inject_Z (col + 1) * TILE_SIZE cfg
  /\ y_low t == inject_Z row * TILE_SIZE cfg
  /\ y_high t == inject_Z (row + 1) * TILE_SIZE cfg
  /\ z_low t == b
  /\ z_high t == min_z + TILE_SIZE cfg / 2.
Proof.
  intros Hs t. subst t.
  unfold x_low, x_high, y_low, y_high, z_low, z_high.
  rewrite tile_of_mesh.
  change (o_location (tile_of cfg city_obj row col min_z b))
    with {| vx := inject_Z col * TILE_SIZE cfg + TILE_SIZE cfg / 2;
            vy := inject_Z row * TILE_SIZE cfg + TILE_SIZE cfg / 2;
            vz := b + (min_z + TILE_SIZE cfg / 2 - b) / 2 |}.
  change (o_scale_z (tile_of cfg city_obj row col min_z b))
    with ((min_z + TILE_SIZE cfg / 2 - b) / TILE_SIZE cfg).
  cbn [vx vy vz base_size].
  rewrite !inject_Z_plus. change (inject_Z 1) with 1.
  repeat split; field; exact Hs.
Qed.

(** ** Corner offset *)

(** C3.  The corner offset [add_corner_magnets] works with is
    [max(MAGNET_PERIM_OFFSET, MAGNET_RADIUS + MAGNET_SAFETY)], hence at
    least [MAGNET_RADIUS + MAGNET_SAFETY] for any configured perimeter
    offset; radius 0.005, safety 0.001 and perimeter offset 0.001 give
    0.006 and not 0.001.  Whatever modifiers the cube already carries,
    [add_corner_magnets] adds four bores centred that offset inside the
    lines [x +- TILE_SIZE/2], [y +- TILE_SIZE/2]; and in the tile
    [process_tile] builds these lines are the faces of the cube, so each
    bore centre lies exactly the clamped offset inside the two faces of
    its corner. *)
Theorem corner_offset_clamped (cfg : Config) :
  let offset := Qmax (MAGNET_PERIM_OFFSET cfg) (MAGNET_RADIUS cfg + MAGNET_SAFETY cfg) in
  offset_m cfg == offset
  /\ MAGNET_RADIUS cfg + MAGNET_SAFETY cfg <= offset_m cfg
  /\ (MAGNET_RADIUS cfg == 0.005 ->
      MAGNET_SAFETY cfg == 0.001 ->
      MAGNET_PERIM_OFFSET cfg == 0.001 ->
      offset_m cfg == 0.006 /\ ~ offset_m cfg == 0.001)
  /\ (forall cube row col x y z cube_height,
        map (fun b => (vx (snd b), vy (snd b)))
            (bores (add_corner_magnets cfg cube row col x y z cube_height)) =
        (map (fun b => (vx (snd b), vy (snd b))) (bores cube) ++
         [ (x - (TILE_SIZE cfg / 2 - offset_m cfg), y - (TILE_SIZE cfg / 2 - offset_m cfg));
           (x + (TILE_SIZE cfg / 2 - offset_m cfg), y - (TILE_SIZE cfg / 2 - offset_m cfg));
           (x - (TILE_SIZE cfg / 2 - offset_m cfg), y + (TILE_SIZE cfg / 2 - offset_m cfg));
           (x + (TILE_SIZE cfg / 2 - offset_m cfg), y + (TILE_SIZE cfg / 2 - offset_m cfg)) ])%list)
  /\ (forall city_obj row col tiles min_z bottom_z,
        min_z_in_tile cfg city_obj row col = Some min_z ->
        quantized_bottom cfg min_z = Ok bottom_z ->
        ~ TILE_SIZE cfg == 0 ->
        exists t b0 b1 b2 b3,
          process_tile cfg city_obj row col tiles = Ok (tiles ++ [t])%list
          /\ bores t = [b0; b1; b2; b3]
          /\ vx (snd b0) - x_low t == offset /\ vy (snd b0) - y_low t == offset
          /\ x_high t - vx (snd b1) == offset /\ vy (snd b1) - y_low t == offset
          /\ vx (snd b2) - x_low t == offset /\ y_high t - vy (snd b2) == offset
          /\ x_high t - vx (snd b3) == offset /\ y_high t - vy (snd b3) == offset).
Proof.
  cbv zeta.
  split; [apply py_max_Qmax|].
  split; [apply py_max_lub_r|].
  split; [|split].
  - intros Hr Hs Hp.
    assert (Ho : offset_m cfg == 0.006).
    { unfold offset_m. rewrite py_max_Qmax.
      fold (MAGNET_PERIM_OFFSET cfg). rewrite Hp, Hr, Hs. reflexivity. }
    split; [exact Ho|]. rewrite Ho. discriminate.
  - intros cube row col x y z cube_height.
    rewrite bores_add_corner_magnets. cbv zeta. now rewrite map_app.
  - intros city_obj row col tiles min_z bottom_z Hm Hb Hs.
    pose proof (process_tile_populated cfg city_obj row col tiles _ _ Hm Hb Hs) as Hp.
    destruct (tile_of_spans cfg city_obj row col min_z bottom_z Hs)
      as [Hx0 [Hx1 [Hy0 [Hy1 _]]]].
    pose proof (tile_of_bores cfg city_obj row col min_z bottom_z) as Hbores.
    cbv beta zeta in Hbores.
    eexists. eexists. eexists. eexists. eexists.
    split; [exact Hp|]. split; [exact Hbores|].
    cbn [snd vx vy].
    rewrite Hx0, Hx1, Hy0, Hy1, <- (py_max_Qmax (MAGNET_PERIM_OFFSET cfg)).
    change (py_max (MAGNET_PERIM_OFFSET cfg) (MAGNET_RADIUS cfg + MAGNET_SAFETY cfg))
      with (offset_m cfg).
    rewrite !inject_Z_plus. change (inject_Z 1) with 1.
    repeat split; field.
Qed.

Lemma corner_offset_clamped_witness :
  exists min_z bottom_z t b0 b1 b2 b3,
    min_z_in_tile clamp_config sample_city 1 2 = Some min_z
    /\ quantized_bottom clamp_config min_z = Ok bottom_z
    /\ process_tile clamp_config sample_city 1 2 [] = Ok [t]
    /\ bores t = [b0; b1; b2; b3]
    /\ vx (snd b0) - x_low t == 0.006
    /\ x_high t - vx (snd b3) == 0.006.
Proof.
  eexists. eexists.
  edestruct (proj2 (proj2 (proj2 (proj2 (corner_offset_clamped clamp_config))))
               sample_city 1%Z 2%Z [])
    as (t & b0 & b1 & b2 & b3 & Hp & Hb & H0 & _ & _ & _ & _ & _ & H3 & _).
  - reflexivity.
  - reflexivity.
  - discriminate.
  - exists t, b0, b1, b2, b3.
    split; [reflexivity|]. split; [reflexivity|].
    split; [exact Hp|]. split; [exact Hb|].
    split; [rewrite H0 | rewrite H3]; reflexivity.
Defined.

(** ** Enclosure height *)

Lemma top_above_bottom (cfg : Config) (min_z bottom_z : Q) :
  quantized_bottom cfg min_z = Ok bottom_z ->
  0 < TILE_SIZE cfg ->
  0 <= MIN_MODEL_BASE_DEPTH cfg ->
  0 < FILL_LAYER_THICKNESS cfg ->
  0 <= EPS cfg ->
  bottom_z < min_z + TILE_SIZE cfg / 2.
Proof.
  intros Hb Hs Hd Hf He.
  destruct (quantized_bottom_upper_bound cfg min_z Hf He) as [b [Hb' Hle]].
  rewrite Hb in Hb'. injection Hb' as <-.
  assert (0 < TILE_SIZE cfg / 2) by (apply Qlt_shift_div_l; lra).
  lra.
Qed.

(** C2, as the code has it.  [process_tile] never compares the underside
    with the top: for a populated tile, once [quantized_bottom] has
    returned and [TILE_SIZE] is not zero, it appends one cube of height
    [top - bottom], scaled by [height / TILE_SIZE] and centred half-way,
    whatever the sign of that height.  The height is positive when the
    configuration is sane: positive tile size and layer thickness,
    non-negative base depth and [EPS]. *)
Theorem enclosure_height_unchecked (cfg : Config) (city_obj : CityObj) (row col : Z)
    (tiles : list TileObj) (min_z bottom_z : Q) :
  min_z_in_tile cfg city_obj row col = Some min_z ->
  quantized_bottom cfg min_z = Ok bottom_z ->
  ~ TILE_SIZE cfg == 0 ->
  (exists t,
      process_tile cfg city_obj row col tiles = Ok (tiles ++ [t])%list
      /\ o_mesh t = CubeMesh (TILE_SIZE cfg)
      /\ o_scale_z t = (min_z + TILE_SIZE cfg / 2 - bottom_z) / TILE_SIZE cfg
      /\ vz (o_location t) = bottom_z + (min_z + TILE_SIZE cfg / 2 - bottom_z) / 2)
  /\ (0 < TILE_SIZE cfg ->
      0 <= MIN_MODEL_BASE_DEPTH cfg ->
      0 < FILL_LAYER_THICKNESS cfg ->
      0 <= EPS cfg ->
      bottom_z < min_z + TILE_SIZE cfg / 2).
Proof.
  intros Hm Hb Hs. split.
  - exists (tile_of cfg city_obj row col min_z bottom_z).
    split; [now apply process_tile_populated|].
    repeat split.
  - now apply top_above_bottom.
Qed.

Lemma enclosure_height_unchecked_witness :
  exists min_z bottom_z t,
    min_z_in_tile inverted_config sample_city 1 2 = Some min_z
    /\ quantized_bottom inverted_config min_z = Ok bottom_z
    /\ ~ TILE_SIZE inverted_config == 0
    /\ process_tile inverted_config sample_city 1 2 [] = Ok [t]
    /\ o_scale_z t < 0.
Proof.
  eexists. eexists.
  edestruct (enclosure_height_unchecked inverted_config sample_city 1 2 [])
    as [[t [Hp [_ [Hz _]]]] _].
  - reflexivity.
  - reflexivity.
  - discriminate.
  - exists t. split; [reflexivity|]. split; [reflexivity|].
    split; [discriminate|]. split; [exact Hp|].
    rewrite Hz. reflexivity.
Defined.

(** C2 fails as worded: with the base depth at -0.2 the tile of the sample
    mesh has its underside above its top, and [process_tile] still appends
    it; [main] exports it and prints nothing but the usual two lines. *)
Lemma enclosure_not_rejected :
  ~ enclosure_rejected inverted_config sample_city 1 2
  /\ exists w t,
       main inverted_config host_ok sample_world = Ok w
       /\ files w = [("output/tiles/tile_2_1.stl", t)]
       /\ o_scale_z t < 0
       /\ stdout w =
          [ "Exported: output/tiles/tile_2_1.stl";
            "Created 1 tile(s) with city cut, 2 cm-quantized underside, and four corner magnet holes." ].
Proof.
  split.
  - intros H.
    unshelve epose proof (H _ _ [] eq_refl eq_refl _) as H'.
    + vm_compute. discriminate.
    + vm_compute in H'. discriminate.
  - eexists. eexists. split; [vm_compute; reflexivity|].
    split; [reflexivity|]. split; reflexivity.
Qed.

(** ** Bores *)

(** C7, as the code has it.  A populated tile gets four bores, each of
    radius [MAGNET_RADIUS] and depth [MAGNET_HEIGHT + extra]; a bore
    reaches from [extra] below the underside to [MAGNET_HEIGHT] above it:
    its top face is in the plane [bottom_z + MAGNET_HEIGHT]. *)
Theorem bore_geometry (cfg : Config) (city_obj : CityObj) (row col : Z)
    (tiles : list TileObj) (min_z bottom_z : Q) :
  min_z_in_tile cfg city_obj row col = Some min_z ->
  quantized_bottom cfg min_z = Ok bottom_z ->
  ~ TILE_SIZE cfg == 0 ->
  exists t,
    process_tile cfg city_obj row col tiles = Ok (tiles ++ [t])%list
    /\ List.length (bores t) = 4%nat
    /\ Forall (fun b => fst (fst b) = MAGNET_RADIUS cfg
                        /\ snd (fst b) = MAGNET_HEIGHT cfg + extra
                        /\ top_face b == bottom_z + MAGNET_HEIGHT cfg
                        /\ bottom_face b == bottom_z - extra)
              (bores t).
Proof.
  intros Hm Hb Hs.
  exists (tile_of cfg city_obj row col min_z bottom_z).
  split; [now apply process_tile_populated|].
  rewrite tile_of_bores. cbv zeta.
  split; [reflexivity|].
  repeat (apply Forall_cons;
          [cbn [fst snd top_face bottom_face vz];
           split; [reflexivity|]; split; [reflexivity|]; split; unfold extra; field|]).
  apply Forall_nil.
Qed.

Lemma bore_geometry_witness :
  exists min_z bottom_z t,
    min_z_in_tile default_config sample_city 1 2 = Some min_z
    /\ quantized_bottom default_config min_z = Ok bottom_z
    /\ ~ TILE_SIZE default_config == 0
    /\ process_tile default_config sample_city 1 2 [] = Ok [t]
    /\ List.length (bores t) = 4%nat.
Proof.
  eexists. eexists.
  edestruct (bore_geometry default_config sample_city 1 2 []) as [t [Hp [Hl _]]].
  - reflexivity.
  - reflexivity.
  - discriminate.
  - exists t. split; [reflexivity|]. split; [reflexivity|].
    split; [discriminate|]. split; [exact Hp | exact Hl].
Defined.

(** C7 fails as worded: on the sample mesh with the shipped configuration
    the top face of a bore is not in the plane of the underside. *)
Lemma bores_not_flush_with_underside :
  ~ bores_flush_with_underside default_config sample_city 1 2.
Proof.
  intros H.
  unshelve epose proof (H _ _ _ eq_refl eq_refl eq_refl) as H'.
  apply Forall_inv in H'. destruct H' as [_ [_ Ht]].
  vm_compute in Ht. discriminate.
Qed.

(** ** Applying the modifiers *)

Lemma modifier_apply_name (h : Host) (obj obj' : TileObj) (name : string) :
  modifier_apply h obj name = Some obj' -> o_name obj' = o_name obj.
Proof.
  unfold modifier_apply.
  destruct (find_modifier name (o_modifiers obj)) as [m|]; [|discriminate].
  destruct (modifier_raises h obj m); [discriminate|].
  intros [= <-]. reflexivity.
Qed.

Lemma apply_names_name (h : Host) (names : list string) (obj : TileObj) :
  o_name (apply_names h obj names) = o_name obj.
Proof.
  revert obj. induction names as [|n names IH]; intros obj; simpl; [reflexivity|].
  destruct (modifier_apply h obj n) as [obj'|] eqn:E.
  - rewrite IH. eapply modifier_apply_name; eassumption.
  - apply IH.
Qed.

Lemma apply_tile_name (h : Host) (t : TileObj) : o_name (apply_tile h t) = o_name t.
Proof.
  unfold apply_tile, apply_modifiers. now rewrite !apply_names_name.
Qed.



Lemma apply_names_failed_step (h : Host) (obj : TileObj) (name : string)
    (names : list string) :
  modifier_apply h obj name = None ->
  apply_names h obj (name :: names) = apply_names h obj names.
Proof.
  intros H. simpl. now rewrite H.
Qed.



Lemma apply_names_stack (h : Host) :
  (forall o m, modifier_raises h o m = false) ->
  forall (ms : list Modifier) (obj : TileObj),
    o_modifiers obj = ms ->
    o_mesh (apply_names h obj (map m_name ms)) =
    fold_left (fun me m => Boolean (m_operation m) me (m_object m)) ms (o_mesh obj)
    /\ o_modifiers (apply_names h obj (map m_name ms)) = [].
Proof.
  intros Hok ms. induction ms as [|m ms IH]; intros obj Hs.
  - simpl. auto.
  - cbn [map apply_names]. unfold modifier_apply, find_modifier.
    rewrite Hs. cbn [find]. rewrite String.eqb_refl, Hok.
    cbn [remove_modifier]. rewrite String.eqb_refl.
    cbn [fold_left]. apply IH. reflexivity.
Qed.




(** ** What a run prints and writes *)

Lemma name_field_apply_tile (h : Host) (t : TileObj) (k : nat) :
  name_field (apply_tile h t) k = name_field t k.
Proof.
  unfold name_field. now rewrite apply_tile_name.
Qed.

Lemma export_step_unfold (cfg : Config) (h : Host) (w : World) (t : TileObj) :
  export_step cfg h w t =
  (row <- name_field t 2 ;;
   col <- name_field t 1 ;;
   let out := OUTPUT_DIR cfg ++ "/" ++ "tile_" ++ py_str col ++ "_" ++ py_str row ++ ".stl" in
   Ok {| city_mesh_file := city_mesh_file w;
         output_dir := output_dir w;
         stdout := stdout w ++ ["Exported: " ++ out];
         files := files w ++ [(out, apply_tile h t)] |}).
Proof.
  unfold export_step. rewrite !name_field_apply_tile. reflexivity.
Qed.

Lemma export_loop_any_host (cfg : Config) (h1 h2 : Host) (tiles : list TileObj) :
  forall w1 w2 w1',
    stdout w1 = stdout w2 ->
    map fst (files w1) = map fst (files w2) ->
    export_loop cfg h1 w1 tiles = Ok w1' ->
    exists w2',
      export_loop cfg h2 w2 tiles = Ok w2'
      /\ stdout w1' = stdout w2'
      /\ map fst (files w1') = map fst (files w2').
Proof.
  induction tiles as [|t tiles IH]; intros w1 w2 w1' Ho Hf; simpl.
  - intros [= <-]. now exists w2.
  - rewrite !export_step_unfold.
    destruct (name_field t 2) as [row|e]; cbn [bind]; [|discriminate].
    destruct (name_field t 1) as [col|e]; cbn [bind]; [|discriminate].
    apply IH; cbn [stdout files].
    + now rewrite Ho.
    + rewrite !map_app. now rewrite Hf.
Qed.

Lemma city_of_run_ext (h1 h2 : Host) (obj : CityObj) :
  (forall vs, cleaned_vertices h1 vs = cleaned_vertices h2 vs) ->
  city_of_run h1 obj = city_of_run h2 obj.
Proof.
  intros He. unfold city_of_run, cleanup_normals. cbn. now rewrite He.
Qed.

Lemma main_any_host (cfg : Config) (h1 h2 : Host) (w w1 : World) :
  (forall vs, cleaned_vertices h1 vs = cleaned_vertices h2 vs) ->
  main cfg h1 w = Ok w1 ->
  exists w2,
    main cfg h2 w = Ok w2
    /\ stdout w1 = stdout w2
    /\ map fst (files w1) = map fst (files w2).
Proof.
  intros He.
  destruct (output_dir_usable_dec w) as [Hu|Hn];
    [|destruct (main_blocked cfg h1 w Hn) as [e ->]; discriminate].
  destruct (city_mesh_file w) as [obj|] eqn:Hw.
  - rewrite !(main_unfold _ _ _ _ Hw Hu), (city_of_run_ext h1 h2 obj He).
    destruct (if SINGLE_TILE_MODE cfg
              then process_tile cfg (city_of_run h2 obj)
                     (SINGLE_TILE_ROW cfg) (SINGLE_TILE_COL cfg) []
              else process_tiles cfg (city_of_run h2 obj) (grid_indices cfg) [])
      as [tiles|e]; cbn [bind]; [|discriminate].
    destruct (export_loop cfg h1 (with_output_dir w) tiles) as [w1'|e] eqn:E1;
      cbn [bind]; [|discriminate].
    intros [= <-].
    destruct (export_loop_any_host cfg h1 h2 tiles _ _ w1' eq_refl eq_refl E1)
      as [w2' [E2 [Ho Hf]]].
    rewrite E2. cbn [bind]. eexists. split; [reflexivity|].
    cbn [print stdout files]. now rewrite Ho, Hf.
  - rewrite (main_missing_mesh cfg h1 w Hw Hu). discriminate.
Qed.

(** C6, as the code has it.  A step on which [modifier_apply] raises
    leaves the object as it was, mesh and modifier stack, and the loop
    goes on with the next name.  Nothing is printed about it: a run that
    completes under one behaviour of the host completes under any other,
    printing the same lines and writing files of the same names. *)
Theorem boolean_failures_are_silent (cfg : Config) (h : Host) :
  (forall obj name names,
      modifier_apply h obj name = None ->
      apply_names h obj (name :: names) = apply_names h obj names)
  /\ (forall h' w w1,
        (forall vs, cleaned_vertices h vs = cleaned_vertices h' vs) ->
        main cfg h w = Ok w1 ->
        exists w2,
          main cfg h' w = Ok w2
          /\ stdout w1 = stdout w2
          /\ map fst (files w1) = map fst (files w2)).
Proof.
  split.
  - apply apply_names_failed_step.
  - intros h' w w1. apply main_any_host.
Qed.

Lemma boolean_failures_are_silent_witness :
  exists w1 w2,
    main default_config host_ok sample_world = Ok w1
    /\ main default_config host_failing sample_world = Ok w2
    /\ stdout w1 = stdout w2
    /\ map fst (files w1) = map fst (files w2).
Proof.
  eexists.
  assert (E1 : main default_config host_ok sample_world = Ok ?[w1])
    by (vm_compute; reflexivity).
  destruct (proj2 (boolean_failures_are_silent default_config host_ok)
              host_failing sample_world _ (fun _ => eq_refl) E1)
    as [w2 [H2 [Ho Hf]]].
  exists w2. split; [exact E1|]. split; [exact H2|]. split; assumption.
Defined.

(** C6 fails as worded: when the host raises on every modifier of the
    sample tile, the step "MagnetHole_0" fails and no printed line
    mentions it. *)
Lemma failure_not_logged :
  exists t,
    process_tile default_config (city_of_run host_failing sample_city) 1 2 [] = Ok [t]
    /\ ~ failures_are_logged default_config host_failing sample_world t.
Proof.
  eexists. split; [vm_compute; reflexivity|].
  intros H.
  unshelve epose proof (H "MagnetHole_0" _ _ _) as [line [Hin Hinf]];
    [shelve | | | ].
  - exists ["Difference"].
    eexists. split; vm_compute; reflexivity.
  - vm_compute. reflexivity.
  - vm_compute in Hin. destruct Hin as [<-|[]].
    vm_compute in Hinf. discriminate.
Qed.

(** ** Tile names and their indices *)

Lemma py_split_no_sep (sep : ascii) (s : string) :
  ~ In sep (list_ascii_of_string s) -> py_split sep s = [s].
Proof.
  induction s as [|c s IH]; simpl; intros Hn; [reflexivity|].
  destruct (Ascii.eqb_spec c sep) as [->|Hc].
  - exfalso. apply Hn. now left.
  - rewrite IH; [reflexivity|]. intros Hin. apply Hn. now right.
Qed.

Lemma py_split_app (sep : ascii) (a rest : string) :
  ~ In sep (list_ascii_of_string a) ->
  py_split sep (a ++ String sep rest) = a :: py_split sep rest.
Proof.
  induction a as [|c a IH]; simpl; intros Hn.
  - now rewrite Ascii.eqb_refl.
  - destruct (Ascii.eqb_spec c sep) as [->|Hc].
    + exfalso. apply Hn. now left.
    + rewrite IH; [reflexivity|]. intros Hin. apply Hn. now right.
Qed.

Lemma string_of_uint_no_underscore (d : Decimal.uint) :
  ~ In "_"%char (list_ascii_of_string (NilEmpty.string_of_uint d)).
Proof.
  induction d; simpl; intros H; try (destruct H as [H|H]; [discriminate H | auto]).
  exact H.
Qed.

Lemma py_str_no_underscore (n : Z) :
  ~ In "_"%char (list_ascii_of_string (py_str n)).
Proof.
  unfold py_str, NilZero.string_of_int, NilZero.string_of_uint.
  destruct (Z.to_int n) as [d|d].
  - destruct d; try apply string_of_uint_no_underscore.
    simpl. intros [H|[]]. discriminate H.
  - simpl. intros [H|H]; [discriminate H|].
    revert H. destruct d; try apply string_of_uint_no_underscore.
    simpl. intros [H|[]]. discriminate H.
Qed.

Lemma py_int_str (n : Z) : py_int (py_str n) = Ok n.
Proof.
  unfold py_int, py_str.
  rewrite NilZero.isi.
  - now rewrite DecimalZ.of_to.
  - destruct n; simpl; try discriminate.
    intros [= H]. now apply DecimalPos.Unsigned.to_uint_nonnil in H.
  - destruct n; simpl; try discriminate.
    intros [= H]. now apply DecimalPos.Unsigned.to_uint_nonnil in H.
Qed.

Lemma split_tile_name (row col : Z) :
  py_split "_"%char ("Tile_" ++ py_str col ++ "_" ++ py_str row) =
  ["Tile"; py_str col; py_str row].
Proof.
  change ("Tile_" ++ py_str col ++ "_" ++ py_str row)
    with ("Tile" ++ String "_"%char (py_str col ++ String "_"%char (py_str row))).
  rewrite py_split_app by (simpl; intuition discriminate).
  rewrite py_split_app by apply py_str_no_underscore.
  rewrite py_split_no_sep by apply py_str_no_underscore.
  reflexivity.
Qed.

Lemma name_field_row (t : TileObj) (row col : Z) :
  o_name t = "Tile_" ++ py_str col ++ "_" ++ py_str row ->
  name_field t 2 = Ok row /\ name_field t 1 = Ok col.
Proof.
  intros Hn. unfold name_field. rewrite Hn, split_tile_name.
  cbn [py_index nth_error bind]. now rewrite !py_int_str.
Qed.

Lemma export_step_tile_of (cfg : Config) (h : Host) (w : World) (t : TileObj)
    (row col : Z) :
  o_name t = "Tile_" ++ py_str col ++ "_" ++ py_str row ->
  let out := OUTPUT_DIR cfg ++ "/" ++ "tile_" ++ py_str col ++ "_" ++ py_str row ++ ".stl" in
  export_step cfg h w t =
  Ok {| city_mesh_file := city_mesh_file w;
        output_dir := output_dir w;
        stdout := stdout w ++ ["Exported: " ++ out];
        files := files w ++ [(out, apply_tile h t)] |}.
Proof.
  intros Hn. cbv zeta. rewrite export_step_unfold.
  destruct (name_field_row t row col Hn) as [-> ->]. reflexivity.
Qed.

(** ** Single-tile mode *)

Lemma process_tile_new_tile (cfg : Config) (city_obj : CityObj) (row col : Z)
    (tiles tiles' : list TileObj) :
  process_tile cfg city_obj row col tiles = Ok tiles' ->
  tiles' = tiles
  \/ exists t, tiles' = (tiles ++ [t])%list
               /\ o_name t = "Tile_" ++ py_str col ++ "_" ++ py_str row.
Proof.
  unfold process_tile.
  destruct (min_z_in_tile cfg city_obj row col) as [min_z|].
  - destruct (quantized_bottom cfg min_z) as [b|e]; cbn [bind]; [|discriminate].
    destruct (py_truediv (min_z + TILE_SIZE cfg / 2 - b) (TILE_SIZE cfg)) as [s|e];
      cbn [bind]; [|discriminate].
    intros [= <-]. right. eexists. split; reflexivity.
  - intros [= <-]. now left.
Qed.







(** * Further properties of the script *)

(** ** Quantizer: order, period, grid points *)



(** ** The grid of footprints *)

Lemma py_range_In (n z : Z) : In z (py_range n) <-> (0 <= z < n)%Z.
Proof.
  unfold py_range. rewrite in_map_iff. split.
  - intros [i [<- Hi]]. apply in_seq in Hi. lia.
  - intros Hz. exists (Z.to_nat z). split; [lia|]. apply in_seq. lia.
Qed.

Lemma py_range_NoDup (n : Z) : NoDup (py_range n).
Proof.
  unfold py_range. apply Injective_map_NoDup.
  - intros a b. apply Nat2Z.inj.
  - apply seq_NoDup.
Qed.

Lemma grid_indices_In (cfg : Config) (r c : Z) :
  In (r, c) (grid_indices cfg) <->
  (0 <= r < TILES_Y cfg)%Z /\ (0 <= c < TILES_X cfg)%Z.
Proof.
  unfold grid_indices. rewrite in_flat_map. split.
  - intros [r' [Hr Hc]]. apply in_map_iff in Hc. destruct Hc as [c' [[= <- <-] Hc]].
    now rewrite <- !py_range_In.
  - intros [Hr Hc]. exists r. split; [now apply py_range_In|].
    apply in_map_iff. exists c. split; [reflexivity | now apply py_range_In].
Qed.

Lemma grid_indices_NoDup (cfg : Config) : NoDup (grid_indices cfg).
Proof.
  unfold grid_indices.
  pose proof (py_range_NoDup (TILES_Y cfg)) as Hy.
  induction Hy as [|r rs Hr Hrs IH]; simpl; [constructor|].
  apply NoDup_app; [| exact IH |].
  - apply Injective_map_NoDup; [|apply py_range_NoDup].
    intros a b [= ->]. reflexivity.
  - intros [r' c'] Hin1 Hin2.
    apply in_map_iff in Hin1. destruct Hin1 as [c1 [[= <- <-] _]].
    apply in_flat_map in Hin2. destruct Hin2 as [r2 [Hr2 Hin2]].
    apply in_map_iff in Hin2. destruct Hin2 as [c2 [[= <- <-] _]].
    contradiction.
Qed.

(** A point of [0, n*s] lies in one of the [n] closed cells of width [s]. *)
Lemma cell_of (s x : Q) (n : Z) :
  0 < s -> (0 < n)%Z -> 0 <= x -> x <= inject_Z n * s ->
  exists c, (0 <= c < n)%Z
            /\ inject_Z c * s <= x /\ x <= inject_Z (c + 1) * s.
Proof.
  intros Hs Hn Hx0 Hxn.
  destruct (floor_step_bounds x s Hs) as [Hlo Hhi].
  set (f := Qfloor (x / s)) in *.
  assert (Hf0 : (0 <= f)%Z).
  { change 0%Z with (Qfloor 0). apply Qfloor_resp_le.
    apply Qle_shift_div_l; [exact Hs | lra]. }
  assert (Hup : x <= inject_Z (f + 1) * s).
  { rewrite inject_Z_plus. change (inject_Z 1) with 1. lra. }
  destruct (Z_lt_le_dec f n) as [Hlt|Hge].
  - exists f. repeat split; (lia || assumption).
  - exists (n - 1)%Z. split; [lia|].
    assert (Hfn : inject_Z n * s <= inject_Z f * s).
    { apply Qmult_le_compat_r; [|lra]. now rewrite <- Zle_Qle. }
    split.
    + assert (He : inject_Z (n - 1) == inject_Z n - 1)
        by (unfold Z.sub; rewrite inject_Z_plus, inject_Z_opp; reflexivity).
      rewrite He. lra.
    + replace (n - 1 + 1)%Z with n by lia. exact Hxn.
Qed.

(** X4.  With a positive tile size and a grid of at least one tile each
    way, every vertex of the rectangle [[0, TILES_X*S] x [0, TILES_Y*S]]
    lies in the footprint of some index the grid loops visit: the
    profiler misses no vertex of the grid area. *)
Theorem grid_covers_rectangle (cfg : Config) (v : Vec3) :
  0 < TILE_SIZE cfg ->
  (0 < TILES_X cfg)%Z ->
  (0 < TILES_Y cfg)%Z ->
  0 <= vx v -> vx v <= inject_Z (TILES_X cfg) * TILE_SIZE cfg ->
  0 <= vy v -> vy v <= inject_Z (TILES_Y cfg) * TILE_SIZE cfg ->
  exists row col,
    In (row, col) (grid_indices cfg)
    /\ in_bounds (tile_aabb cfg row col) v = true.
Proof.
  intros Hs Hx Hy Hx0 Hx1 Hy0 Hy1.
  destruct (cell_of _ _ _ Hs Hx Hx0 Hx1) as [c [Hc [Hc0 Hc1]]].
  destruct (cell_of _ _ _ Hs Hy Hy0 Hy1) as [r [Hr [Hr0 Hr1]]].
  exists r, c. split.
  - now apply grid_indices_In.
  - apply in_bounds_iff. tauto.
Qed.

Lemma grid_covers_rectangle_witness :
  exists row col,
    In (row, col) (grid_indices default_config)
    /\ in_bounds (tile_aabb default_config row col)
                 {| vx := 0.6; vy := 1.0; vz := 0.3 |} = true.
Proof.
  apply (grid_covers_rectangle default_config {| vx := 0.6; vy := 1.0; vz := 0.3 |});
    try reflexivity; discriminate.
Defined.

(** ** The enclosure and its fixtures *)

(** X6.  The cube of a populated tile spans exactly the footprint of its
    index in X and Y, and in Z it reaches from the quantized underside to
    [min_z + TILE_SIZE/2]. *)
Theorem enclosure_spans_footprint (cfg : Config) (city_obj : CityObj) (row col : Z)
    (tiles : list TileObj) (min_z bottom_z : Q) :
  min_z_in_tile cfg city_obj row col = Some min_z ->
  quantized_bottom cfg min_z = Ok bottom_z ->
  ~ TILE_SIZE cfg == 0 ->
  exists t,
    process_tile cfg city_obj row col tiles = Ok (tiles ++ [t])%list
    /\ (let '(min_x, max_x, min_y, max_y) := tile_aabb cfg row col in
        x_low t == min_x /\ x_high t == max_x
        /\ y_low t == min_y /\ y_high t == max_y)
    /\ z_low t == bottom_z
    /\ z_high t == min_z + TILE_SIZE cfg / 2.
Proof.
  intros Hm Hb Hs.
  exists (tile_of cfg city_obj row col min_z bottom_z).
  split; [now apply process_tile_populated|].
  unfold tile_aabb, x_low, x_high, y_low, y_high, z_low, z_high.
  rewrite tile_of_mesh.
  change (o_location (tile_of cfg city_obj row col min_z bottom_z))
    with {| vx := inject_Z col * TILE_SIZE cfg + TILE_SIZE cfg / 2;
            vy := inject_Z row * TILE_SIZE cfg + TILE_SIZE cfg / 2;
            vz := bottom_z + (min_z + TILE_SIZE cfg / 2 - bottom_z) / 2 |}.
  change (o_scale_z (tile_of cfg city_obj row col min_z bottom_z))
    with ((min_z + TILE_SIZE cfg / 2 - bottom_z) / TILE_SIZE cfg).
  cbn [vx vy vz base_size].
  rewrite !inject_Z_plus. change (inject_Z 1) with 1.
  repeat split; field; exact Hs.
Qed.

Lemma enclosure_spans_footprint_witness :
  exists min_z bottom_z t,
    min_z_in_tile default_config sample_city 1 2 = Some min_z
    /\ quantized_bottom default_config min_z = Ok bottom_z
    /\ ~ TILE_SIZE default_config == 0
    /\ process_tile default_config sample_city 1 2 [] = Ok [t]
    /\ z_low t == bottom_z.
Proof.
  eexists. eexists.
  edestruct (enclosure_spans_footprint default_config sample_city 1 2 [])
    as [t [Hp [_ [Hz _]]]].
  - reflexivity.
  - reflexivity.
  - discriminate.
  - exists t. split; [reflexivity|]. split; [reflexivity|].
    split; [discriminate|]. split; [exact Hp | exact Hz].
Defined.





(** ** The modifier stack under [apply_modifiers] *)

Lemma find_modifier_remove (name : string) (ms : list Modifier) (m : Modifier) :
  find_modifier name ms = Some m ->
  Permutation ms (m :: remove_modifier name ms).
Proof.
  unfold find_modifier.
  induction ms as [|m0 ms IH]; simpl; [discriminate|].
  destruct (String.eqb (m_name m0) name).
  - intros [= ->]. apply Permutation_refl.
  - intros H. apply IH in H.
    eapply Permutation_trans; [apply perm_skip; exact H|]. apply perm_swap.
Qed.

Lemma find_modifier_absent (name : string) (ms : list Modifier) :
  ~ In name (map m_name ms) -> find_modifier name ms = None.
Proof.
  unfold find_modifier.
  induction ms as [|m0 ms IH]; simpl; intros Hn; [reflexivity|].
  destruct (String.eqb_spec (m_name m0) name) as [He|He].
  - exfalso. apply Hn. now left.
  - apply IH. intros Hin. apply Hn. now right.
Qed.

Lemma modifier_apply_conserves (h : Host) (obj obj' : TileObj) (name : string) :
  modifier_apply h obj name = Some obj' ->
  (exists c, mesh_cutters (o_mesh obj') = (mesh_cutters (o_mesh obj) ++ [c])%list
             /\ Permutation (map m_object (o_modifiers obj))
                            (c :: map m_object (o_modifiers obj')))
  /\ base_size (o_mesh obj') = base_size (o_mesh obj)
  /\ o_location obj' = o_location obj
  /\ o_scale_z obj' = o_scale_z obj.
Proof.
  unfold modifier_apply.
  destruct (find_modifier name (o_modifiers obj)) as [m|] eqn:Ef; [|discriminate].
  destruct (modifier_raises h obj m); [discriminate|].
  intros [= <-]. cbn. split; [|auto].
  exists (m_object m). split; [reflexivity|].
  apply find_modifier_remove in Ef.
  change (m_object m :: map m_object (remove_modifier name (o_modifiers obj)))
    with (map m_object (m :: remove_modifier name (o_modifiers obj))).
  now apply Permutation_map.
Qed.

Lemma apply_names_conserves (h : Host) (names : list string) (obj : TileObj) :
  (exists applied,
      mesh_cutters (o_mesh (apply_names h obj names)) =
        (mesh_cutters (o_mesh obj) ++ applied)%list
      /\ Permutation (map m_object (o_modifiers obj))
                     (applied ++ map m_object (o_modifiers (apply_names h obj names))))
  /\ base_size (o_mesh (apply_names h obj names)) = base_size (o_mesh obj)
  /\ o_location (apply_names h obj names) = o_location obj
  /\ o_scale_z (apply_names h obj names) = o_scale_z obj.
Proof.
  revert obj. induction names as [|n names IH]; intros obj; simpl.
  - split; [|auto]. exists []. rewrite app_nil_r. split; [reflexivity|].
    apply Permutation_refl.
  - destruct (modifier_apply h obj n) as [obj'|] eqn:E; [|apply IH].
    apply modifier_apply_conserves in E.
    destruct E as [[c [Hc Hp]] [Hb [Hl Hz]]].
    destruct (IH obj') as [[applied [Ha Hp']] [Hb' [Hl' Hz']]].
    split; [|repeat split; congruence].
    exists (c :: applied). split.
    + rewrite Ha, Hc, <- app_assoc. reflexivity.
    + eapply Permutation_trans; [exact Hp|]. simpl. now apply perm_skip.
Qed.

(** X9.  [apply_modifiers] loses no cutter and applies none twice,
    whatever names it is given and whatever the host raises on: the mesh
    only gains subtractions, and the cutters it gained together with
    those still on the stack are the cutters that were on the stack.  The
    cube it started from, the location and the Z scale stay as they
    were. *)
Theorem apply_modifiers_conserves_cutters (h : Host) (obj : TileObj)
    (names : option (list string)) :
  (exists applied,
      mesh_cutters (o_mesh (apply_modifiers h obj names)) =
        (mesh_cutters (o_mesh obj) ++ applied)%list
      /\ Permutation (map m_object (o_modifiers obj))
           (applied ++ map m_object (o_modifiers (apply_modifiers h obj names))))
  /\ base_size (o_mesh (apply_modifiers h obj names)) = base_size (o_mesh obj)
  /\ o_location (apply_modifiers h obj names) = o_location obj
  /\ o_scale_z (apply_modifiers h obj names) = o_scale_z obj.
Proof.
  unfold apply_modifiers. apply apply_names_conserves.
Qed.

Lemma mesh_cutters_fold (ms : list Modifier) (m0 : Mesh) :
  mesh_cutters (fold_left (fun me m => Boolean (m_operation m) me (m_object m)) ms m0) =
  (mesh_cutters m0 ++ map m_object ms)%list.
Proof.
  revert m0. induction ms as [|m ms IH]; intros m0; simpl.
  - now rewrite app_nil_r.
  - rewrite IH. simpl. now rewrite <- app_assoc.
Qed.

(** X10.  Called without names, [apply_modifiers] works through the whole
    stack from its first modifier to its last: when the host raises on
    none, the stack ends empty and the mesh has gained the cutters of the
    stack in stack order. *)
Theorem apply_all_modifiers (h : Host) (obj : TileObj) :
  (forall o m, modifier_raises h o m = false) ->
  o_modifiers (apply_modifiers h obj None) = []
  /\ mesh_cutters (o_mesh (apply_modifiers h obj None)) =
     (mesh_cutters (o_mesh obj) ++ map m_object (o_modifiers obj))%list.
Proof.
  intros Hok. unfold apply_modifiers.
  destruct (apply_names_stack h Hok (o_modifiers obj) obj eq_refl) as [Hm Hs].
  split; [exact Hs|]. rewrite Hm. apply mesh_cutters_fold.
Qed.

Lemma apply_all_modifiers_witness :
  o_modifiers
    (apply_modifiers host_ok
       (add_boolean (add_boolean (primitive_cube_add 1 {| vx := 0; vy := 0; vz := 0 |})
                                 (City sample_city) "Difference")
                    (Cylinder "Hole" 0.005 0.012 {| vx := 0; vy := 0; vz := 0 |}) "Hole")
       None) = [].
Proof.
  apply (apply_all_modifiers host_ok). reflexivity.
Defined.

(** X11.  Names that are not on the stack are passed over: if none of the
    given names is the name of a modifier of the object,
    [apply_modifiers] returns the object unchanged. *)
Theorem apply_modifiers_absent_names (h : Host) (obj : TileObj) (names : list string) :
  (forall n, In n names -> ~ In n (map m_name (o_modifiers obj))) ->
  apply_modifiers h obj (Some names) = obj.
Proof.
  unfold apply_modifiers.
  induction names as [|n names IH]; intros Hn; simpl; [reflexivity|].
  unfold modifier_apply.
  rewrite find_modifier_absent by (apply Hn; now left).
  apply IH. intros n' Hin. apply Hn. now right.
Qed.

Lemma apply_modifiers_absent_names_witness :
  apply_modifiers host_ok
    (add_boolean (primitive_cube_add 1 {| vx := 0; vy := 0; vz := 0 |})
                 (City sample_city) "Difference")
    (Some ["MagnetHole_0"; "MagnetCountersink_0"])
  = add_boolean (primitive_cube_add 1 {| vx := 0; vy := 0; vz := 0 |})
                (City sample_city) "Difference".
Proof.
  apply (apply_modifiers_absent_names host_ok).
  intros n [<-|[<-|[]]] [H|[]]; discriminate H.
Defined.

(** ** A whole run *)

Lemma quantized_bottom_total (cfg : Config) (min_z : Q) :
  (QUANTIZE_FILL cfg = true -> ~ FILL_LAYER_THICKNESS cfg == 0) ->
  exists b, quantized_bottom cfg min_z = Ok b.
Proof.
  intros Hd. destruct (QUANTIZE_FILL cfg) eqn:Hq.
  - eexists. apply quantized_bottom_on; auto.
  - eexists. now apply quantized_bottom_off.
Qed.

Lemma process_tile_divisors_nonzero (cfg : Config) (city_obj : CityObj) (row col : Z)
    (tiles : list TileObj) :
  divisors_nonzero cfg ->
  exists new,
    process_tile cfg city_obj row col tiles = Ok (tiles ++ new)%list
    /\ map o_name new =
       map (fun rc => tile_name (fst rc) (snd rc))
           (filter (populated cfg city_obj) [(row, col)]).
Proof.
  intros [Hs Hq]. unfold populated. cbn [filter fst snd].
  destruct (min_z_in_tile cfg city_obj row col) as [min_z|] eqn:Hm.
  - destruct (quantized_bottom_total cfg min_z Hq) as [b Hb].
    exists [tile_of cfg city_obj row col min_z b]. split; [|reflexivity].
    now apply process_tile_populated.
  - exists []. rewrite app_nil_r. split; [|reflexivity].
    now apply process_tile_unpopulated.
Qed.

Lemma process_tiles_divisors_nonzero (cfg : Config) (city_obj : CityObj)
    (idx : list (Z * Z)) :
  divisors_nonzero cfg ->
  forall tiles,
  exists new,
    process_tiles cfg city_obj idx tiles = Ok (tiles ++ new)%list
    /\ map o_name new =
       map (fun rc => tile_name (fst rc) (snd rc)) (filter (populated cfg city_obj) idx).
Proof.
  intros Hd. induction idx as [|[r c] idx IH]; intros tiles.
  - exists []. now rewrite app_nil_r.
  - destruct (process_tile_divisors_nonzero cfg city_obj r c tiles Hd) as [n1 [H1 Hn1]].
    destruct (IH (tiles ++ n1)%list) as [n2 [H2 Hn2]].
    exists (n1 ++ n2)%list. split.
    + cbn [process_tiles]. rewrite H1. cbn [bind]. rewrite H2, app_assoc. reflexivity.
    + rewrite map_app, Hn1, Hn2, <- map_app. f_equal.
      change ((r, c) :: idx) with ([(r, c)] ++ idx)%list.
      now rewrite filter_app.
Qed.

Lemma export_loop_named (cfg : Config) (h : Host) (idx : list (Z * Z)) :
  forall tiles w,
    map o_name tiles = map (fun rc => tile_name (fst rc) (snd rc)) idx ->
    exists w',
      export_loop cfg h w tiles = Ok w'
      /\ map fst (files w') =
         (map fst (files w) ++ map (fun rc => tile_path cfg (fst rc) (snd rc)) idx)%list
      /\ map snd (files w') = (map snd (files w) ++ map (apply_tile h) tiles)%list
      /\ stdout w' = (stdout w ++ map (exported_line cfg) idx)%list.
Proof.
  induction idx as [|[r c] idx IH]; intros tiles w Hn.
  - destruct tiles; [|discriminate]. exists w. now rewrite !app_nil_r.
  - destruct tiles as [|t tiles]; [discriminate|].
    injection Hn as Ht Hn. cbn [fst snd] in Ht.
    cbn [export_loop]. rewrite (export_step_tile_of cfg h w t r c Ht). cbn [bind].
    match goal with
    | |- exists w', export_loop _ _ ?w1 _ = _ /\ _ =>
        destruct (IH tiles w1 Hn) as [w' [He [Hf [Hs Ho]]]]
    end.
    exists w'. split; [exact He|].
    cbn [files stdout] in Hf, Hs, Ho.
    rewrite Hf, Hs, Ho, !map_app, <- !app_assoc. repeat split.
Qed.

Lemma main_run (cfg : Config) (h : Host) (w : World) (obj : CityObj) :
  city_mesh_file w = Some obj ->
  output_dir_usable w ->
  main cfg h w =
  (tiles <- process_tiles cfg (city_of_run h obj) (run_indices cfg) [] ;;
   w' <- export_loop cfg h (with_output_dir w) tiles ;;
   Ok (print w' (created_line cfg))).
Proof.
  intros Hw Hu. rewrite (main_unfold _ _ _ _ Hw Hu). unfold run_indices.
  destruct (SINGLE_TILE_MODE cfg); [|reflexivity].
  cbn [process_tiles].
  destruct (process_tile cfg (city_of_run h obj)
              (SINGLE_TILE_ROW cfg) (SINGLE_TILE_COL cfg) []); reflexivity.
Qed.

(** X12.  When no divisor is zero, the mesh file is there and the output
    directory exists or can be created, a run
    completes and writes exactly one file per populated index among those
    it visits (the single index, or the grid row by row), in that order
    and under [OUTPUT_DIR/tile_{col}_{row}.stl]; it prints one "Exported"
    line per file and then the closing line, whose count is 1 or
    [TILES_X * TILES_Y] whatever the number of files. *)
Theorem run_exports_populated (cfg : Config) (h : Host) (w : World) (obj : CityObj) :
  city_mesh_file w = Some obj ->
  output_dir_usable w ->
  divisors_nonzero cfg ->
  exists w',
    main cfg h w = Ok w'
    /\ map fst (files w') =
       (map fst (files w)
        ++ map (fun rc => tile_path cfg (fst rc) (snd rc))
               (filter (populated cfg (city_of_run h obj)) (run_indices cfg)))%list
    /\ stdout w' =
       (stdout w
        ++ map (exported_line cfg)
               (filter (populated cfg (city_of_run h obj)) (run_indices cfg))
        ++ [created_line cfg])%list.
Proof.
  intros Hw Hu Hd. rewrite (main_run _ _ _ _ Hw Hu).
  destruct (process_tiles_divisors_nonzero cfg (city_of_run h obj) (run_indices cfg) Hd [])
    as [new [Hp Hn]].
  rewrite Hp. cbn [bind app].
  destruct (export_loop_named cfg h _ new (with_output_dir w) Hn) as [w' [He [Hf [_ Ho]]]].
  rewrite He. cbn [bind]. eexists. split; [reflexivity|].
  unfold print. cbn [files stdout]. rewrite Hf, Ho, <- app_assoc. split; reflexivity.
Qed.

Lemma run_exports_populated_witness :
  exists w',
    main grid_config host_ok sample_world = Ok w'
    /\ map fst (files w') = ["output/tiles/tile_0_0.stl"; "output/tiles/tile_2_1.stl"]
    /\ stdout w' =
       [ "Exported: output/tiles/tile_0_0.stl";
         "Exported: output/tiles/tile_2_1.stl";
         "Created 15 tile(s) with city cut, 2 cm-quantized underside, and four corner magnet holes." ].
Proof.
  edestruct (run_exports_populated grid_config host_ok sample_world sample_city eq_refl)
    as [w' [Hm [Hf Ho]]].
  - left. reflexivity.
  - split; [discriminate | intros _; discriminate].
  - exists w'. split; [exact Hm|].
    rewrite Hf, Ho. split; vm_compute; reflexivity.
Defined.

(** ** File names *)

Lemma list_ascii_of_string_app (a b : string) :
  list_ascii_of_string (a ++ b) = (list_ascii_of_string a ++ list_ascii_of_string b)%list.
Proof.
  induction a as [|c a IH]; simpl; [reflexivity | now rewrite IH].
Qed.

Lemma string_app_inv_head (d s s' : string) : d ++ s = d ++ s' -> s = s'.
Proof.
  induction d as [|c d IH]; simpl; [auto|]. intros [= H]. auto.
Qed.

Lemma string_app_inv_tail (s s' t : string) : s ++ t = s' ++ t -> s = s'.
Proof.
  intros H. apply (f_equal list_ascii_of_string) in H.
  rewrite !list_ascii_of_string_app in H. apply app_inv_tail in H.
  apply (f_equal string_of_list_ascii) in H.
  now rewrite !string_of_list_ascii_of_string in H.
Qed.

Lemma py_str_inj (a b : Z) : py_str a = py_str b -> a = b.
Proof.
  intros H. apply (f_equal py_int) in H. rewrite !py_int_str in H. congruence.
Qed.

Lemma split_path_tail (row col : Z) :
  py_split "_"%char (py_str col ++ "_" ++ py_str row ++ ".stl") =
  [py_str col; py_str row ++ ".stl"].
Proof.
  change (py_str col ++ "_" ++ py_str row ++ ".stl")
    with (py_str col ++ String "_"%char (py_str row ++ ".stl")).
  rewrite py_split_app by apply py_str_no_underscore.
  rewrite py_split_no_sep; [reflexivity|].
  rewrite list_ascii_of_string_app. intros Hin. apply in_app_or in Hin.
  destruct Hin as [Hin|Hin].
  - now apply py_str_no_underscore in Hin.
  - simpl in Hin. intuition discriminate.
Qed.

Lemma tile_path_inj (cfg : Config) (r c r' c' : Z) :
  tile_path cfg r c = tile_path cfg r' c' -> r = r' /\ c = c'.
Proof.
  unfold tile_path. intros H.
  apply string_app_inv_head in H.
  change ("/" ++ "tile_" ++ py_str c ++ "_" ++ py_str r ++ ".stl")
    with ("/tile_" ++ (py_str c ++ "_" ++ py_str r ++ ".stl")) in H.
  change ("/" ++ "tile_" ++ py_str c' ++ "_" ++ py_str r' ++ ".stl")
    with ("/tile_" ++ (py_str c' ++ "_" ++ py_str r' ++ ".stl")) in H.
  apply string_app_inv_head in H.
  apply (f_equal (py_split "_"%char)) in H.
  rewrite !split_path_tail in H. injection H as Hc Hr.
  apply string_app_inv_tail in Hr.
  split; now apply py_str_inj.
Qed.

(** X14.  Different indices never share a file: the path of a tile
    determines its row and column, so the paths a run can write for the
    indices it visits are pairwise different and no tile overwrites the
    file of another. *)
Theorem tile_paths_distinct (cfg : Config) :
  (forall r c r' c', tile_path cfg r c = tile_path cfg r' c' -> r = r' /\ c = c')
  /\ NoDup (map (fun rc => tile_path cfg (fst rc) (snd rc)) (run_indices cfg)).
Proof.
  split; [apply tile_path_inj|].
  apply Injective_map_NoDup.
  - intros [r c] [r' c'] H. cbn [fst snd] in H.
    apply tile_path_inj in H. destruct H as [-> ->]. reflexivity.
  - unfold run_indices. destruct (SINGLE_TILE_MODE cfg).
    + constructor; [intros [] | constructor].
    + apply grid_indices_NoDup.
Qed.

Lemma tile_paths_distinct_witness :
  NoDup (map (fun rc => tile_path grid_config (fst rc) (snd rc)) (run_indices grid_config)).
Proof.
  apply (tile_paths_distinct grid_config).
Defined.

(** ** Profiling a merged mesh *)

Lemma zs_of_app (cfg : Config) (city_obj : CityObj) (vs1 vs2 : list Vec3) (row col : Z) :
  map vz (verts_in_tile cfg (with_vertices city_obj (vs1 ++ vs2)) row col) =
  (map vz (verts_in_tile cfg (with_vertices city_obj vs1) row col)
   ++ map vz (verts_in_tile cfg (with_vertices city_obj vs2) row col))%list.
Proof.
  unfold verts_in_tile, verts_world, with_vertices. cbn [matrix_world vertices].
  now rewrite map_app, filter_app, map_app.
Qed.

Lemma min_z_of_zs (cfg : Config) (city_obj : CityObj) (row col : Z) :
  min_z_in_tile cfg city_obj row col =
  match map vz (verts_in_tile cfg city_obj row col) with
  | [] => None
  | z0 :: rest => Some (py_min z0 rest)
  end.
Proof. reflexivity. Qed.

Lemma py_min_app (z0 : Q) (l1 l2 : list Q) :
  py_min z0 (l1 ++ l2) = py_min (py_min z0 l1) l2.
Proof. unfold py_min. apply fold_left_app. Qed.

Lemma py_min_pair (a y0 : Q) (l : list Q) :
  py_min a (y0 :: l) == py_min a [py_min y0 l].
Proof.
  apply Qle_antisym.
  - destruct (py_min_In [py_min y0 l] a) as [H|[H|[]]]; rewrite <- H.
    + apply py_min_le_head.
    + apply py_min_le. right. apply py_min_In.
  - destruct (py_min_In (y0 :: l) a) as [H|H].
    + rewrite <- H. apply py_min_le_head.
    + eapply Qle_trans; [apply (py_min_le [py_min y0 l] a (py_min y0 l)); right; now left|].
      now apply py_min_le.
Qed.

(** X15.  Profiling distributes over merging vertex lists: the lowest
    height found in a footprint for the vertices [vs1 ++ vs2] is the
    lesser of the heights found for [vs1] and for [vs2], and it is [None]
    only if both are. *)
Theorem min_z_in_tile_app (cfg : Config) (city_obj : CityObj) (vs1 vs2 : list Vec3)
    (row col : Z) :
  option_Qeq
    (min_z_in_tile cfg (with_vertices city_obj (vs1 ++ vs2)) row col)
    (option_min (min_z_in_tile cfg (with_vertices city_obj vs1) row col)
                (min_z_in_tile cfg (with_vertices city_obj vs2) row col)).
Proof.
  rewrite !min_z_of_zs, zs_of_app.
  destruct (map vz (verts_in_tile cfg (with_vertices city_obj vs1) row col))
    as [|x0 l1];
    destruct (map vz (verts_in_tile cfg (with_vertices city_obj vs2) row col))
      as [|y0 l2]; cbn [app option_min option_Qeq].
  - exact I.
  - apply Qeq_refl.
  - rewrite app_nil_r. apply Qeq_refl.
  - rewrite py_min_app. apply py_min_pair.
Qed.

(** ** Index, name and back *)

(** X16.  The index survives the trip through the object name: for the
    tile [process_tile] appends for any row and column, negative ones
    included, [main] reads the same row and column back out of the name
    after the modifiers have been applied, whatever the host did. *)
Theorem tile_name_round_trip (cfg : Config) (city_obj : CityObj) (row col : Z)
    (tiles : list TileObj) (t : TileObj) (h : Host) :
  process_tile cfg city_obj row col tiles = Ok (tiles ++ [t])%list ->
  name_field (apply_tile h t) 2 = Ok row
  /\ name_field (apply_tile h t) 1 = Ok col.
Proof.
  intros Hp. apply process_tile_new_tile in Hp.
  destruct Hp as [Hp|[t' [Hp Hn]]].
  - apply (f_equal (@List.length TileObj)) in Hp.
    rewrite length_app in Hp. simpl in Hp. lia.
  - apply app_inv_head in Hp. injection Hp as <-.
    rewrite !name_field_apply_tile. now apply name_field_row.
Qed.

Lemma tile_name_round_trip_witness :
  exists t,
    process_tile default_config
      (with_vertices sample_city [ {| vx := -0.3; vy := -1.1; vz := 0.02 |} ])
      (-6) (-2) [] = Ok [t]
    /\ name_field (apply_tile host_failing t) 2 = Ok (-6)%Z
    /\ name_field (apply_tile host_failing t) 1 = Ok (-2)%Z.
Proof.
  eexists. split; [vm_compute; reflexivity|].
  apply (tile_name_round_trip default_config
           (with_vertices sample_city [ {| vx := -0.3; vy := -1.1; vz := 0.02 |} ])
           (-6) (-2) []).
  vm_compute. reflexivity.
Defined.

(** X17.  The grid loops of [main] visit every index with
    [0 <= row < TILES_Y] and [0 <= col < TILES_X], each exactly once, and
    no other index; with a non-positive [TILES_X] or [TILES_Y] they visit
    nothing. *)
Theorem grid_indices_exact (cfg : Config) :
  (forall r c,
      In (r, c) (grid_indices cfg) <->
      (0 <= r < TILES_Y cfg)%Z /\ (0 <= c < TILES_X cfg)%Z)
  /\ NoDup (grid_indices cfg)
  /\ ((TILES_X cfg <= 0)%Z \/ (TILES_Y cfg <= 0)%Z -> grid_indices cfg = []).
Proof.
  split; [apply grid_indices_In|].
  split; [apply grid_indices_NoDup|].
  intros Hz.
  destruct (grid_indices cfg) as [|[r c] l] eqn:E; [reflexivity|].
  assert (Hin : In (r, c) (grid_indices cfg)) by (rewrite E; now left).
  apply grid_indices_In in Hin. lia.
Qed.

Lemma grid_indices_exact_witness :
  grid_indices (with_grid default_config 0 5) = [].
Proof.
  apply (grid_indices_exact (with_grid default_config 0 5)).
  left. discriminate.
Defined.
